(** * heatmon: zone demand monitor (user/applications/heatmon/application.cpp)

    A shallow embedding of the hysteresis debouncer, the bounded event log and
    the bounded JSON encoder of the heatmon application, together with the
    properties its specification states about them.

    Conventions.
    - [int] and [size_t] are the 32-bit types of the target (ARM Cortex-M);
      values are carried in [Z] and every conversion or arithmetic step that
      the C++ code performs is followed by the matching wrap-around
      ([C.to_int], [C.to_size_t]).
    - A character buffer is a [list ascii] whose length is its [sizeof].
      A store outside of the buffer is a fault: stores return [option], and
      [None] means that the program wrote outside of the array.
    - [buffer + k] is the pair of the buffer and the offset [k].
    - [digitalRead], [Time.now] and [Particle.publish] live outside of the
      program; their results are inputs ([PollEnv]), the publications are
      recorded in the state. *)

From Stdlib Require Import ZArith Lia Ascii String.
From stdpp Require Import base tactics option list.

Local Open Scope Z_scope.

(** ** C integer types *)

Module C.

Definition INT_MAX : Z := 2147483647.
Definition INT_MIN : Z := -2147483648.
Definition SIZE_MAX : Z := 4294967295.

(** Conversion to [int] (two's complement, 32 bits). *)
Definition to_int (z : Z) : Z := (z + 2147483648) mod 4294967296 - 2147483648.

(** Conversion to [size_t] (unsigned, 32 bits). *)
Definition to_size_t (z : Z) : Z := z mod 4294967296.

Definition is_int (z : Z) : Prop := INT_MIN <= z <= INT_MAX.

Definition of_bool (b : bool) : Z := if b then 1 else 0.

End C.

(** ** Characters and buffers *)

Definition NUL : ascii := "000"%char.
Definition dquote : ascii := "034"%char.

Definition chars (s : string) : list ascii := list_ascii_of_string s.

Definition sizeof (buf : list ascii) : Z := Z.of_nat (length buf).

(** [buf[i] = c] *)
Definition store (buf : list ascii) (i : Z) (c : ascii) : option (list ascii) :=
  if (0 <=? i) && (i <? sizeof buf)
  then Some (<[Z.to_nat i := c]> buf)
  else None.

(** Consecutive stores of the characters of [s], the first one at [i]. *)
Fixpoint store_bytes (buf : list ascii) (i : Z) (s : list ascii)
  : option (list ascii) :=
  match s with
  | [] => Some buf
  | c :: s' => buf' ← store buf i c; store_bytes buf' (i + 1) s'
  end.

(** The C string held by a buffer: the characters before the first NUL;
    [None] when the buffer holds no NUL. *)
Fixpoint c_str (buf : list ascii) : option (list ascii) :=
  match buf with
  | [] => None
  | c :: rest =>
      if Ascii.eqb c NUL then Some [] else s ← c_str rest; Some (c :: s)
  end.

(** ** printf

    The C library is not part of the program: [snprintf] and its conversion
    [%d] are modelled as the C standard describes them. *)

Definition digit_char (d : Z) : ascii := ascii_of_nat (48 + Z.to_nat d).

(** Decimal digits of a natural number, least significant digit first,
    each one pushed in front of [acc]. *)
Fixpoint utoa (fuel : nat) (n : Z) (acc : list ascii) : list ascii :=
  match fuel with
  | O => acc
  | S fuel' =>
      let acc' := digit_char (n mod 10) :: acc in
      if n <? 10 then acc' else utoa fuel' (n / 10) acc'
  end.

(** A number has no more decimal digits than binary digits. *)
Definition utoa_fuel (n : Z) : nat := S (Z.to_nat (Z.log2 n)).

(** The conversion [%d]. *)
Definition fmt_d (z : Z) : list ascii :=
  if z <? 0
  then "-"%char :: utoa (utoa_fuel (- z)) (- z) []
  else utoa (utoa_fuel z) z [].

(** The number that a string of decimal digits denotes. *)
Definition digit_value (c : ascii) : Z := Z.of_nat (nat_of_ascii c) - 48.

Definition decimal_value (s : list ascii) : Z :=
  fold_left (fun acc c => 10 * acc + digit_value c) s 0.

(** Expansion of a format string whose only conversion is [%d]. *)
Fixpoint format (fmt : list ascii) (args : list Z) : list ascii :=
  match fmt with
  | [] => []
  | c :: rest =>
      match rest with
      | c' :: rest' =>
          if Ascii.eqb c "%" && Ascii.eqb c' "d"
          then match args with
               | a :: args' => fmt_d a ++ format rest' args'
               | [] => format rest' []
               end
          else c :: format rest args
      | [] => [c]
      end
  end.

(** [snprintf(buffer + off, n, fmt, args...)]: at most [n - 1] characters of
    the expansion are stored, followed by a NUL; nothing is stored when [n] is
    0.  The result is the length of the whole expansion. *)
Definition snprintf (buf : list ascii) (off n : Z)
    (fmt : list ascii) (args : list Z) : option (list ascii * Z) :=
  let s := format fmt args in
  if n =? 0 then Some (buf, Z.of_nat (length s))
  else
    buf' ← store_bytes buf off (take (Z.to_nat (n - 1)) s ++ [NUL]);
    Some (buf', Z.of_nat (length s)).

(** ** Constants and data *)

Definition HYST_MAX : Z := 500.
Definition HYST_MIN : Z := 0.
Definition HYST_THRESH_ON : Z := 400.
Definition HYST_THRESH_OFF : Z := 100.

Module Demand.
Inductive t : Set := Unknown | True | False.
End Demand.

(** [a == b] on demand values. *)
Definition demand_eqb (a b : Demand.t) : bool :=
  match a, b with
  | Demand.Unknown, Demand.Unknown => true
  | Demand.True, Demand.True => true
  | Demand.False, Demand.False => true
  | _, _ => false
  end.

(** Names of the input pins ([uint16_t] constants of the platform), and the
    two levels of a digital input. *)
Inductive pin_t : Set := D4 | D5 | D6 | D7.
Inductive level_t : Set := HIGH | LOW.

(** The fields [demand] are declared [int] and only ever hold a [Demand]
    enumerator. *)
Module ZoneInfo.
Record t : Set := mk { id : Z; pin : pin_t; count : Z; demand : Demand.t }.

Definition set_count (zone : t) (c : Z) : t :=
  mk (id zone) (pin zone) c (demand zone).
Definition set_demand (zone : t) (d : Demand.t) : t :=
  mk (id zone) (pin zone) (count zone) d.
End ZoneInfo.

Module ZoneEvent.
Record t : Set := mk { info : ZoneInfo.t; time : Z; demand : Demand.t }.
End ZoneEvent.

Definition MAX_NUM_EVENTS : Z := 20.

(** [{"id":%d,"t":%d,"on":%d}] *)
Definition ZONE_JSON_STRING : list ascii :=
  chars "{" ++ [dquote] ++ chars "id" ++ [dquote] ++ chars ":%d,"
  ++ [dquote] ++ chars "t" ++ [dquote] ++ chars ":%d,"
  ++ [dquote] ++ chars "on" ++ [dquote] ++ chars ":%d}".

(** ** The encoder *)

(** The arguments that [write_event_json] passes to [snprintf]. *)
Definition event_args (event : ZoneEvent.t) : list Z :=
  [ ZoneInfo.id (ZoneEvent.info event);
    ZoneEvent.time event;
    C.of_bool (demand_eqb (ZoneEvent.demand event) Demand.True) ].

Definition write_event_json (event : ZoneEvent.t)
    (buf : list ascii) (off : Z) (buffer_size : Z) (leading_comma : bool)
  : option (list ascii * Z) :=
  '(buf, off, buffer_size) ←
    (if leading_comma && (2 <=? buffer_size)
     then buf' ← store buf off ","%char;
          Some (buf', off + 1, C.to_size_t (buffer_size - 1))
     else Some (buf, off, buffer_size));
  '(buf, n) ← snprintf buf off buffer_size ZONE_JSON_STRING (event_args event);
  let needed := C.to_size_t n in
  if buffer_size <=? needed
  then Some (buf, -1)
  else Some (buf, C.to_int (C.to_size_t (needed + C.of_bool leading_comma))).

(** The [for] loop of [update_event_json]; [sz] is [sizeof(zone_events_json)].
    The result is the buffer and [idx] when the loop is left. *)
Fixpoint events_loop (sz : Z) (events : list ZoneEvent.t)
    (first : bool) (idx : Z) (buf : list ascii) : option (list ascii * Z) :=
  match events with
  | [] => Some (buf, idx)
  | event :: rest =>
      let free_space := C.to_int (C.to_size_t (sz - idx - 1)) in
      '(buf, written) ←
        write_event_json event buf idx (C.to_size_t free_space) (negb first);
      if written <? 0
      then Some (buf, idx)
      else events_loop sz rest false (C.to_size_t (idx + C.to_size_t written)) buf
  end.

Definition update_event_json (zone_events_json : list ascii)
    (zone_events : list ZoneEvent.t) : option (list ascii * Z) :=
  let sz := sizeof zone_events_json in
  if sz <? 3 then Some (zone_events_json, 0)
  else
    buf ← store zone_events_json 0 "["%char;
    '(buf, idx) ← events_loop sz zone_events true 1 buf;
    buf ← store buf idx "]"%char;
    let idx := C.to_size_t (idx + 1) in
    buf ← store buf idx NUL;
    Some (buf, C.to_int idx).

(** ** The event log *)

(** [zone_events.pop_back()] when the list is full, then
    [zone_events.emplace_front(event)]. *)
Definition log_push (event : ZoneEvent.t) (zone_events : list ZoneEvent.t)
  : list ZoneEvent.t :=
  let zone_events :=
    if Z.of_nat (length zone_events) =? MAX_NUM_EVENTS
    then removelast zone_events
    else zone_events in
  event :: zone_events.

(** ** Polling *)

(** What one call of [read_all_zones] gets from outside: the level of every
    pin, the result of the k-th call of [Time.now()] during the poll, and the
    bytes that the uninitialised array [buff] happens to hold. *)
Record PollEnv : Type := {
  digitalRead : pin_t -> level_t;
  Time_now : nat -> Z;
  stack_garbage : nat -> ascii
}.

(** A call of [Particle.publish(name, data, PRIVATE)]; [data] is the C string
    found in the buffer that was passed. *)
Record Publication : Set := {
  pub_name : string;
  pub_data : option (list ascii)
}.

(** The globals of the program, and the publications made so far. *)
Record State : Type := {
  zone_list : list ZoneInfo.t;
  zone_events : list ZoneEvent.t;
  zone_events_json : list ascii;
  polls : Z;
  last_poll : Z;
  last_event : Z;
  published : list Publication
}.

(** The two branches on the level of the pin: the counter is stepped, bounded,
    and then compared with the threshold. *)
Definition observe (level : level_t) (zone : ZoneInfo.t) : ZoneInfo.t :=
  match level with
  | HIGH =>
      let zone := ZoneInfo.set_count zone (C.to_int (ZoneInfo.count zone - 1)) in
      let zone :=
        if ZoneInfo.count zone <? HYST_MIN
        then ZoneInfo.set_count zone HYST_MIN else zone in
      if ZoneInfo.count zone <? HYST_THRESH_OFF
      then ZoneInfo.set_demand zone Demand.False else zone
  | LOW =>
      let zone := ZoneInfo.set_count zone (C.to_int (ZoneInfo.count zone + 5)) in
      let zone :=
        if ZoneInfo.count zone >? HYST_MAX
        then ZoneInfo.set_count zone HYST_MAX else zone in
      if ZoneInfo.count zone >? HYST_THRESH_ON
      then ZoneInfo.set_demand zone Demand.True else zone
  end.

(** The locals of [read_all_zones] that live across the iterations of its
    loop, with the globals that the loop changes; [clock_reads] counts the
    calls of [Time.now()]. *)
Record LoopState : Type := {
  new_event : bool;
  clock_reads : nat;
  events : list ZoneEvent.t;
  pubs : list Publication;
  buff : list ascii
}.

(** One iteration of the loop over [zone_list]. *)
Definition zone_iteration (env : PollEnv) (zone : ZoneInfo.t) (ls : LoopState)
  : option (ZoneInfo.t * LoopState) :=
  let previous_demand := ZoneInfo.demand zone in
  let zone := observe (digitalRead env (ZoneInfo.pin zone)) zone in
  if negb (demand_eqb previous_demand (ZoneInfo.demand zone))
  then
    let event_time := C.to_int (Time_now env (clock_reads ls)) in
    let events :=
      log_push (ZoneEvent.mk zone event_time (ZoneInfo.demand zone)) (events ls) in
    front ← head events;
    '(buff, _) ← write_event_json front (buff ls) 0 (sizeof (buff ls)) false;
    Some (zone,
          {| new_event := true;
             clock_reads := S (clock_reads ls);
             events := events;
             pubs := pubs ls ++ [ {| pub_name := "zone_demand";
                                     pub_data := c_str buff |} ];
             buff := buff |})
  else Some (zone, ls).

Fixpoint zones_loop (env : PollEnv) (zones : list ZoneInfo.t) (ls : LoopState)
  : option (list ZoneInfo.t * LoopState) :=
  match zones with
  | [] => Some ([], ls)
  | zone :: rest =>
      '(zone, ls) ← zone_iteration env zone ls;
      '(rest, ls) ← zones_loop env rest ls;
      Some (zone :: rest, ls)
  end.

Definition read_all_zones (env : PollEnv) (st : State) : option State :=
  let ls0 := {| new_event := false;
                clock_reads := O;
                events := zone_events st;
                pubs := published st;
                buff := map (stack_garbage env) (seq 0 64) |} in
  '(zones, ls) ← zones_loop env (zone_list st) ls0;
  let time := C.to_int (Time_now env (clock_reads ls)) in
  let polls := C.to_int (polls st + 1) in
  let polls := if polls <? 0 then 0 else polls in
  if new_event ls
  then
    '(json, _) ← update_event_json (zone_events_json st) (events ls);
    Some {| zone_list := zones;
            zone_events := events ls;
            zone_events_json := json;
            polls := polls;
            last_poll := time;
            last_event := time;
            published := pubs ls |}
  else
    Some {| zone_list := zones;
            zone_events := events ls;
            zone_events_json := zone_events_json st;
            polls := polls;
            last_poll := time;
            last_event := last_event st;
            published := pubs ls |}.

(** The globals as they are initialised. *)
Definition initial_state : State :=
  {| zone_list :=
       [ ZoneInfo.mk 0 D4 (HYST_MAX ÷ 2) Demand.Unknown;
         ZoneInfo.mk 1 D5 (HYST_MAX ÷ 2) Demand.Unknown;
         ZoneInfo.mk 2 D6 (HYST_MAX ÷ 2) Demand.Unknown ];
     zone_events := [];
     zone_events_json := chars "[]" ++ replicate 618 NUL;
     polls := 0;
     last_poll := 0;
     last_event := 0;
     published := [] |}.

(** The states that the program can be in after some polls. *)
Inductive reachable : State -> Prop :=
| reachable_initial : reachable initial_state
| reachable_poll env st st' :
    reachable st -> read_all_zones env st = Some st' -> reachable st'.

(** Polls in a row, one for each environment of [envs]. *)
Fixpoint run_polls (envs : list PollEnv) (st : State) : option State :=
  match envs with
  | [] => Some st
  | env :: envs' => st' ← read_all_zones env st; run_polls envs' st'
  end.

(** ** JSON texts

    The grammar of RFC 8259 without insignificant whitespace: every text
    accepted here is a JSON text. *)

Definition backslash : ascii := "092"%char.

Definition is_digit (c : ascii) : Prop := (48 <= nat_of_ascii c <= 57)%nat.
Definition is_digit1_9 (c : ascii) : Prop := (49 <= nat_of_ascii c <= 57)%nat.
Definition is_hexdig (c : ascii) : Prop :=
  is_digit c \/ (65 <= nat_of_ascii c <= 70)%nat \/ (97 <= nat_of_ascii c <= 102)%nat.
Definition is_unescaped (c : ascii) : Prop :=
  (32 <= nat_of_ascii c)%nat /\ c <> dquote /\ c <> backslash.

(** int = zero / ( digit1-9 *DIGIT ) *)
Inductive json_int : list ascii -> Prop :=
| json_int_zero : json_int ["0"%char]
| json_int_digits d ds :
    is_digit1_9 d -> Forall is_digit ds -> json_int (d :: ds).

(** frac = decimal-point 1*DIGIT *)
Inductive json_frac : list ascii -> Prop :=
| json_frac_none : json_frac []
| json_frac_some d ds :
    Forall is_digit (d :: ds) -> json_frac ("."%char :: d :: ds).

(** exp = e [ minus / plus ] 1*DIGIT *)
Inductive json_exp : list ascii -> Prop :=
| json_exp_none : json_exp []
| json_exp_some e sign d ds :
    In e (chars "eE") -> sign = [] \/ sign = ["-"%char] \/ sign = ["+"%char] ->
    Forall is_digit (d :: ds) -> json_exp (e :: sign ++ d :: ds).

(** number = [ minus ] int [ frac ] [ exp ] *)
Inductive json_number : list ascii -> Prop :=
| json_number_intro minus i f e :
    minus = [] \/ minus = ["-"%char] ->
    json_int i -> json_frac f -> json_exp e ->
    json_number (minus ++ i ++ f ++ e).

(** char = unescaped / escape ( one of the short escapes / u 4HEXDIG ) *)
Inductive json_char : list ascii -> Prop :=
| json_char_unescaped c : is_unescaped c -> json_char [c]
| json_char_escape c :
    In c (dquote :: backslash :: chars "/bfnrt") -> json_char [backslash; c]
| json_char_unicode h1 h2 h3 h4 :
    Forall is_hexdig [h1; h2; h3; h4] ->
    json_char [backslash; "u"%char; h1; h2; h3; h4].

(** string = quotation-mark *char quotation-mark *)
Inductive json_string : list ascii -> Prop :=
| json_string_intro cs :
    Forall json_char cs -> json_string (dquote :: concat cs ++ [dquote]).

Inductive json_value : list ascii -> Prop :=
| json_false : json_value (chars "false")
| json_null : json_value (chars "null")
| json_true : json_value (chars "true")
| json_of_number s : json_number s -> json_value s
| json_of_string s : json_string s -> json_value s
| json_empty_array : json_value (chars "[]")
| json_array elements :
    json_elements elements -> json_value ("["%char :: elements ++ ["]"%char])
| json_empty_object : json_value (chars "{}")
| json_object members :
    json_members members -> json_value ("{"%char :: members ++ ["}"%char])
with json_elements : list ascii -> Prop :=
| json_elements_one v : json_value v -> json_elements v
| json_elements_more v elements :
    json_value v -> json_elements elements ->
    json_elements (v ++ ","%char :: elements)
with json_members : list ascii -> Prop :=
| json_members_one k v :
    json_string k -> json_value v -> json_members (k ++ ":"%char :: v)
| json_members_more k v members :
    json_string k -> json_value v -> json_members members ->
    json_members (k ++ ":"%char :: v ++ ","%char :: members).

(** A JSON text that is an array. *)
Definition json_array_text (s : list ascii) : Prop :=
  json_value s /\ head s = Some "["%char.

(** ** What the encoder is to produce *)

(** The text of one event. *)
Definition event_json (event : ZoneEvent.t) : list ascii :=
  format ZONE_JSON_STRING (event_args event).

(** The texts of the events one after the other, each one but the first
    after a comma. *)
Fixpoint events_json_body (first : bool) (events : list ZoneEvent.t)
  : list ascii :=
  match events with
  | [] => []
  | event :: rest =>
      (if first then [] else [","%char]) ++ event_json event
      ++ events_json_body false rest
  end.

(** The array of the events. *)
Definition events_json (events : list ZoneEvent.t) : list ascii :=
  "["%char :: events_json_body true events ++ ["]"%char].

(** The fields of an event hold [int]s. *)
Definition event_ints (event : ZoneEvent.t) : Prop :=
  C.is_int (ZoneInfo.id (ZoneEvent.info event)) /\ C.is_int (ZoneEvent.time event).

(** What [write_event_json] is to store: the text of the event, after a comma
    when one is asked for. *)
Definition element (leading_comma : bool) (event : ZoneEvent.t) : list ascii :=
  (if leading_comma then [","%char] else []) ++ event_json event.

(** The array of [events] and its NUL fit in [sz] bytes. *)
Definition fits (sz : Z) (events : list ZoneEvent.t) : Prop :=
  Z.of_nat (length (events_json events)) + 1 <= sz.

(** ** Runs of one zone *)

(** The zone after each of the readings, in order. *)
Fixpoint observe_trace (levels : list level_t) (zone : ZoneInfo.t)
  : list ZoneInfo.t :=
  match levels with
  | [] => []
  | level :: rest =>
      let zone := observe level zone in zone :: observe_trace rest zone
  end.

(** The zone after all of the readings. *)
Definition observe_all (levels : list level_t) (zone : ZoneInfo.t) : ZoneInfo.t :=
  fold_left (fun zone level => observe level zone) levels zone.

Definition count_in_range (zone : ZoneInfo.t) : Prop :=
  HYST_MIN <= ZoneInfo.count zone <= HYST_MAX.

(** ** The log as the specification describes it *)

(** The events pushed one after the other into a log. *)
Definition push_all (pushed : list ZoneEvent.t) (log : list ZoneEvent.t)
  : list ZoneEvent.t :=
  fold_left (fun log event => log_push event log) pushed log.

(** ** The debouncer as the specification describes it *)

(** The comparison with the threshold of the branch taken, on a counter. *)
Definition threshold_compare (level : level_t) (counter : Z) (demand : Demand.t)
  : Demand.t :=
  match level with
  | HIGH => if counter <? HYST_THRESH_OFF then Demand.False else demand
  | LOW => if counter >? HYST_THRESH_ON then Demand.True else demand
  end.

(** The changes of demand that the specification allows. *)
Inductive demand_transition : Demand.t -> Demand.t -> Prop :=
| transition_Unknown_True : demand_transition Demand.Unknown Demand.True
| transition_Unknown_False : demand_transition Demand.Unknown Demand.False
| transition_True_False : demand_transition Demand.True Demand.False
| transition_False_True : demand_transition Demand.False Demand.True.

Definition resolved (d : Demand.t) : Prop := d = Demand.True \/ d = Demand.False.

(** ** One poll as the specification describes it *)

(** The zone after the poll. *)
Definition poll_zone (env : PollEnv) (zone : ZoneInfo.t) : ZoneInfo.t :=
  observe (digitalRead env (ZoneInfo.pin zone)) zone.

(** The events of one poll, oldest first: one for each zone whose demand
    after the poll differs from its demand before, stamped with the result
    of the next call of the clock ([k] calls were made before). *)
Fixpoint poll_events (env : PollEnv) (k : nat) (zones : list ZoneInfo.t)
  : list ZoneEvent.t :=
  match zones with
  | [] => []
  | zone :: rest =>
      let zone' := poll_zone env zone in
      if demand_eqb (ZoneInfo.demand zone) (ZoneInfo.demand zone')
      then poll_events env k rest
      else ZoneEvent.mk zone' (C.to_int (Time_now env k)) (ZoneInfo.demand zone')
           :: poll_events env (S k) rest
  end.

(** The event that an iteration logs when the demand of the zone changes. *)
Definition iteration_event (env : PollEnv) (zone : ZoneInfo.t) (k : nat)
  : ZoneEvent.t :=
  ZoneEvent.mk (poll_zone env zone) (C.to_int (Time_now env k))
               (ZoneInfo.demand (poll_zone env zone)).

(** The publication of one event: its text alone. *)
Definition publication (event : ZoneEvent.t) : Publication :=
  {| pub_name := "zone_demand"; pub_data := Some (event_json event) |}.

(** What holds of the globals whenever [read_all_zones] is called. *)
Record state_inv (st : State) : Prop := {
  inv_ids : Forall (fun zone => C.is_int (ZoneInfo.id zone)) (zone_list st);
  inv_counts : Forall count_in_range (zone_list st);
  inv_log_length : Z.of_nat (length (zone_events st)) <= MAX_NUM_EVENTS;
  inv_log_ints : Forall event_ints (zone_events st);
  inv_log_resolved :
    Forall (fun event => resolved (ZoneEvent.demand event)) (zone_events st);
  inv_json_size : sizeof (zone_events_json st) = 620;
  inv_json_text :
    exists s, c_str (zone_events_json st) = Some s /\ json_array_text s
}.

(** A zone keeps its demand in the poll. *)
Definition quiet (env : PollEnv) (zone : ZoneInfo.t) : Prop :=
  ZoneInfo.demand (poll_zone env zone) = ZoneInfo.demand zone.

(** The counter of polls after a poll. *)
Definition next_polls (polls : Z) : Z :=
  if C.to_int (polls + 1) <? 0 then 0 else C.to_int (polls + 1).

(** ** Inputs of the scenarios *)

(** An environment in which every pin reads [level] and the clock reads [t]. *)
Definition env_const (level : level_t) (t : Z) : PollEnv :=
  {| digitalRead := fun _ => level;
     Time_now := fun _ => t;
     stack_garbage := fun _ => "x"%char |}.

(** The events of scenario B: one for each id from 0 to 24, in this order. *)
Definition scenario_B_events : list ZoneEvent.t :=
  map (fun i => ZoneEvent.mk (ZoneInfo.mk (Z.of_nat i) D4 405 Demand.True)
                             (1000 + Z.of_nat i) Demand.True)
      (seq 0 25).

(** The events of scenario C: zone 0, time 1000, demand on. *)
Definition scenario_C_event (event : ZoneEvent.t) : Prop :=
  ZoneInfo.id (ZoneEvent.info event) = 0
  /\ ZoneEvent.time event = 1000
  /\ ZoneEvent.demand event = Demand.True.

(** [{"id":0,"t":1000,"on":1}] *)
Definition scenario_C_text : list ascii :=
  chars "{" ++ [dquote] ++ chars "id" ++ [dquote] ++ chars ":0,"
  ++ [dquote] ++ chars "t" ++ [dquote] ++ chars ":1000,"
  ++ [dquote] ++ chars "on" ++ [dquote] ++ chars ":1}".

Definition sample_event : ZoneEvent.t :=
  ZoneEvent.mk (ZoneInfo.mk 0 D4 405 Demand.True) 1000 Demand.True.

(** The state after 30 polls in which every zone is on: the counters are at
    400 and the demands still unknown. *)
Definition state_30 : State :=
  default initial_state
          (run_polls (replicate 30 (env_const LOW 1000)) initial_state).

(** The state after one more poll in which every zone is on. *)
Definition state_31 : State :=
  default initial_state (read_all_zones (env_const LOW 1000) state_30).

(** ** Events as the program logs them today *)

(** A zone id of one digit and a time of ten digits: the seconds since 1970
    have ten digits from 2001 on, as long as they fit an [int]. *)
Definition ten_digit_time (event : ZoneEvent.t) : Prop :=
  0 <= ZoneInfo.id (ZoneEvent.info event) <= 9
  /\ 1000000000 <= ZoneEvent.time event <= C.INT_MAX.

(** A full log of such events. *)
Definition full_log : list ZoneEvent.t :=
  map (fun i => ZoneEvent.mk (ZoneInfo.mk (Z.of_nat (i mod 3)) D4 405 Demand.True)
                             (1414000000 + Z.of_nat i) Demand.True)
      (seq 0 20).

(** ** The demand and the counter *)

(** Outside of the band between the thresholds the demand is the one that
    the counter stands for. *)
Definition demand_consistent (zone : ZoneInfo.t) : Prop :=
  (ZoneInfo.count zone < HYST_THRESH_OFF -> ZoneInfo.demand zone = Demand.False)
  /\ (ZoneInfo.count zone > HYST_THRESH_ON -> ZoneInfo.demand zone = Demand.True).

(** ** The scheduler: [rate_limited_call], [send_heartbeat], [sync_time],
    [loop] *)

(** Conversion to [unsigned long] (32 bits on the target). *)
Definition to_ulong (z : Z) : Z := z mod 4294967296.

Definition ULONG_MAX : Z := 4294967295.

(** [String(unsigned long)]: the decimal digits of the number. *)
Definition String_ulong (n : Z) : list ascii := utoa (utoa_fuel n) n [].

(** [rate_limited_call<ACTION_DELAY_MS, function>()].  Each instance of the
    template has a static [last_action] of its own: it is passed in, and
    passed back with the state that [function] leaves.  [millis] is what
    [millis()] returns in this call. *)
Definition rate_limited_call {S : Type} (ACTION_DELAY_MS : Z)
    (function : S -> option S) (millis : Z) (last_action : Z) (s : S)
  : option (Z * S) :=
  let now := to_ulong millis in
  if to_ulong (now - last_action) <? ACTION_DELAY_MS
  then Some (last_action, s)
  else
    let last_action := now in
    s' ← function s; Some (last_action, s').

(** The globals, the static locals of [send_heartbeat] and of the three
    instances of [rate_limited_call], and the number of calls of
    [Particle.syncTime()] made so far. *)
Record Program : Type := {
  globals : State;
  hb : Z;
  last_action_read_all_zones : Z;
  last_action_send_heartbeat : Z;
  last_action_sync_time : Z;
  time_syncs : nat
}.

Definition set_globals (p : Program) (st : State) : Program :=
  {| globals := st;
     hb := hb p;
     last_action_read_all_zones := last_action_read_all_zones p;
     last_action_send_heartbeat := last_action_send_heartbeat p;
     last_action_sync_time := last_action_sync_time p;
     time_syncs := time_syncs p |}.

Definition set_published (st : State) (pubs : list Publication) : State :=
  {| zone_list := zone_list st;
     zone_events := zone_events st;
     zone_events_json := zone_events_json st;
     polls := polls st;
     last_poll := last_poll st;
     last_event := last_event st;
     published := pubs |}.

(** [Particle.publish("heartbeat", String(hb++), PRIVATE)] *)
Definition send_heartbeat (p : Program) : option Program :=
  let data := String_ulong (hb p) in
  let pub := {| pub_name := "heartbeat"; pub_data := Some data |} in
  Some {| globals := set_published (globals p) (published (globals p) ++ [pub]);
          hb := to_ulong (hb p + 1);
          last_action_read_all_zones := last_action_read_all_zones p;
          last_action_send_heartbeat := last_action_send_heartbeat p;
          last_action_sync_time := last_action_sync_time p;
          time_syncs := time_syncs p |}.

(** [Particle.syncTime()] *)
Definition sync_time (p : Program) : option Program :=
  Some {| globals := globals p;
          hb := hb p;
          last_action_read_all_zones := last_action_read_all_zones p;
          last_action_send_heartbeat := last_action_send_heartbeat p;
          last_action_sync_time := last_action_sync_time p;
          time_syncs := S (time_syncs p) |}.

(** What one call of [loop] gets from outside: the result of each of its
    three calls of [millis()], and what a poll gets. *)
Record LoopEnv : Type := {
  millis : nat -> Z;
  poll_env : PollEnv
}.

Definition HALF_DAY_MS : Z := to_ulong (C.to_int (12 * 60 * 60 * 1000)).
Definition MINUTE_MS : Z := to_ulong (C.to_int (60 * 1000)).

Definition loop (env : LoopEnv) (p : Program) : option Program :=
  '(last_action, p) ←
    rate_limited_call 10
      (fun p => st ← read_all_zones (poll_env env) (globals p);
                Some (set_globals p st))
      (millis env 0) (last_action_read_all_zones p) p;
  let p := {| globals := globals p;
              hb := hb p;
              last_action_read_all_zones := last_action;
              last_action_send_heartbeat := last_action_send_heartbeat p;
              last_action_sync_time := last_action_sync_time p;
              time_syncs := time_syncs p |} in
  '(last_action, p) ←
    rate_limited_call MINUTE_MS send_heartbeat
      (millis env 1) (last_action_send_heartbeat p) p;
  let p := {| globals := globals p;
              hb := hb p;
              last_action_read_all_zones := last_action_read_all_zones p;
              last_action_send_heartbeat := last_action;
              last_action_sync_time := last_action_sync_time p;
              time_syncs := time_syncs p |} in
  '(last_action, p) ←
    rate_limited_call HALF_DAY_MS sync_time
      (millis env 2) (last_action_sync_time p) p;
  Some {| globals := globals p;
          hb := hb p;
          last_action_read_all_zones := last_action_read_all_zones p;
          last_action_send_heartbeat := last_action_send_heartbeat p;
          last_action_sync_time := last_action;
          time_syncs := time_syncs p |}.

(** The program when [loop] is first called. *)
Definition initial_program : Program :=
  {| globals := initial_state;
     hb := 0;
     last_action_read_all_zones := 0;
     last_action_send_heartbeat := 0;
     last_action_sync_time := 0;
     time_syncs := O |}.

(** Calls of [loop] in a row, one for each environment. *)
Fixpoint run_loop (envs : list LoopEnv) (p : Program) : option Program :=
  match envs with
  | [] => Some p
  | env :: envs' => p' ← loop env p; run_loop envs' p'
  end.

(** One instance of [rate_limited_call] run at each of the given results of
    [millis()], with a function that counts its calls. *)
Fixpoint limiter_run (ACTION_DELAY_MS : Z) (readings : list Z)
    (last_action : Z) (calls : nat) : Z * nat :=
  match readings with
  | [] => (last_action, calls)
  | millis :: rest =>
      match rate_limited_call ACTION_DELAY_MS (fun c => Some (S c))
                              millis last_action calls with
      | Some (last_action, calls) =>
          limiter_run ACTION_DELAY_MS rest last_action calls
      | None => (last_action, calls)
      end
  end.

(** Times in milliseconds since the start, each at or after the one before
    and less than 2^32 - [delay] after it. *)
Fixpoint steady (delay : Z) (t0 : Z) (ts : list Z) : Prop :=
  match ts with
  | [] => True
  | t :: rest => t0 <= t <= t0 + (ULONG_MAX - delay) /\ steady delay t rest
  end.

(** The publications under the name "heartbeat". *)
Definition heartbeats (pubs : list Publication) : list Publication :=
  List.filter (fun pub => String.eqb (pub_name pub) "heartbeat") pubs.

(** The publications of the polls: those under another name. *)
Definition poll_publications (pubs : list Publication) : list Publication :=
  List.filter (fun pub => negb (String.eqb (pub_name pub) "heartbeat")) pubs.

(** Two states of the globals that differ in the publications at most. *)
Definition same_globals (st1 st2 : State) : Prop :=
  zone_list st1 = zone_list st2
  /\ zone_events st1 = zone_events st2
  /\ zone_events_json st1 = zone_events_json st2
  /\ polls st1 = polls st2
  /\ last_poll st1 = last_poll st2
  /\ last_event st1 = last_event st2.

(** ** [setup] *)

Definition PARTICLE_VARIABLE_SIZE : Z := 12.

(** The variables that [setup] makes readable from outside. *)
Inductive variable_t : Set :=
| var_zone_demand (index : nat)
| var_zone_count (index : nat)
| var_zone_events_json
| var_polls
| var_last_poll
| var_last_event.

(** The calls that [setup] makes: [pinMode(pin, INPUT)], and
    [Particle.variable(name, var)] with the C string that [name] holds. *)
Inductive setup_call : Set :=
| pinMode_INPUT (pin : pin_t)
| Particle_variable (name : option (list ascii)) (var : variable_t).

(** The loop of [setup] over [zone_list]; [index] is the place of the zone
    in the list. *)
Fixpoint setup_zones (zones : list ZoneInfo.t) (index : nat)
    (buff : list ascii) (calls : list setup_call)
  : option (list ascii * list setup_call) :=
  match zones with
  | [] => Some (buff, calls)
  | zone :: rest =>
      let calls := calls ++ [pinMode_INPUT (ZoneInfo.pin zone)] in
      '(buff, _) ← snprintf buff 0 (sizeof buff) (chars "z%d_demand")
                            [ZoneInfo.id zone];
      let calls := calls ++ [Particle_variable (c_str buff) (var_zone_demand index)] in
      '(buff, _) ← snprintf buff 0 (sizeof buff) (chars "z%d_count")
                            [ZoneInfo.id zone];
      let calls := calls ++ [Particle_variable (c_str buff) (var_zone_count index)] in
      setup_zones rest (S index) buff calls
  end.

(** [setup()]; [garbage] is what the uninitialised [buff] holds. *)
Definition setup (garbage : nat -> ascii) (st : State) : option (list setup_call) :=
  let buff := map garbage (seq 0 (Z.to_nat PARTICLE_VARIABLE_SIZE)) in
  '(_, calls) ← setup_zones (zone_list st) 0 buff [];
  Some (calls ++
        [ Particle_variable (Some (chars "zone_events")) var_zone_events_json;
          Particle_variable (Some (chars "polls")) var_polls;
          Particle_variable (Some (chars "last_poll")) var_last_poll;
          Particle_variable (Some (chars "last_event")) var_last_event ]).

(** The name of a variable of a zone, as [setup] asks for it. *)
Definition zone_variable_name (suffix : string) (id : Z) : list ascii :=
  "z"%char :: fmt_d id ++ chars suffix.

(** The name as [snprintf] leaves it in the 12 bytes of [buff]: cut to 11
    characters. *)
Definition registered_name (suffix : string) (id : Z) : list ascii :=
  take 11 (zone_variable_name suffix id).

(** The calls of [setup] for the zones, with the names that [name] gives. *)
Fixpoint zone_setup_calls (name : string -> Z -> list ascii)
    (zones : list ZoneInfo.t) (index : nat) : list setup_call :=
  match zones with
  | [] => []
  | zone :: rest =>
      [ pinMode_INPUT (ZoneInfo.pin zone);
        Particle_variable (Some (name "_demand"%string (ZoneInfo.id zone)))
                          (var_zone_demand index);
        Particle_variable (Some (name "_count"%string (ZoneInfo.id zone)))
                          (var_zone_count index) ]
      ++ zone_setup_calls name rest (S index)
  end.

(** The calls of [setup] after its loop. *)
Definition global_setup_calls : list setup_call :=
  [ Particle_variable (Some (chars "zone_events")) var_zone_events_json;
    Particle_variable (Some (chars "polls")) var_polls;
    Particle_variable (Some (chars "last_poll")) var_last_poll;
    Particle_variable (Some (chars "last_event")) var_last_event ].

(** The names of the variables among the calls. *)
Fixpoint variable_names (calls : list setup_call) : list (option (list ascii)) :=
  match calls with
  | [] => []
  | Particle_variable name _ :: rest => name :: variable_names rest
  | pinMode_INPUT _ :: rest => variable_names rest
  end.

(** A zone id that leaves room for the whole name. *)
Definition short_id (zone : ZoneInfo.t) : Prop := 0 <= ZoneInfo.id zone <= 999.

(** Environments of [loop] with the same result for the three calls of
    [millis()]. *)
Definition loop_env (t : Z) (env : PollEnv) : LoopEnv :=
  {| millis := fun _ => t; poll_env := env |}.

(** The heartbeats published so far are numbered from 0, and [hb] is the
    number of the next one. *)
Definition heartbeat_log (g : State) (h : Z) : Prop :=
  let hs := heartbeats (published g) in
  h = to_ulong (Z.of_nat (length hs))
  /\ map pub_data hs
     = map (fun i => Some (String_ulong (to_ulong (Z.of_nat i))))
           (seq 0 (length hs)).

(** The globals are those of a state that polls alone reach, whose
    publications are the ones made so far without the heartbeats, in the
    same order. *)
Definition monitor_ok (g : State) : Prop :=
  exists st, reachable st /\ same_globals st g
             /\ poll_publications (published g) = published st
             /\ heartbeats (published st) = [].

(** Three calls of [loop], at 5 ms, 60 s and 120.01 s after the start. *)
Definition sample_loop_envs : list LoopEnv :=
  [ loop_env 5 (env_const LOW 1000);
    loop_env 60000 (env_const LOW 1060);
    loop_env 120010 (env_const HIGH 1120) ].

Definition sample_program : Program :=
  default initial_program (run_loop sample_loop_envs initial_program).

(** An event as the polls log it: the demand it records is the new demand of
    the zone, which is on with a counter above [HYST_THRESH_ON] or off with a
    counter below [HYST_THRESH_OFF]. *)
Definition logged_at_threshold (event : ZoneEvent.t) : Prop :=
  ZoneEvent.demand event = ZoneInfo.demand (ZoneEvent.info event)
  /\ ((ZoneEvent.demand event = Demand.True
       /\ HYST_THRESH_ON < ZoneInfo.count (ZoneEvent.info event) <= HYST_MAX)
      \/ (ZoneEvent.demand event = Demand.False
          /\ HYST_MIN <= ZoneInfo.count (ZoneEvent.info event) < HYST_THRESH_OFF)).

(** * Properties *)

(** ** Integer conversions *)

Lemma to_size_t_id z : 0 <= z <= C.SIZE_MAX -> C.to_size_t z = z.
Proof. unfold C.to_size_t, C.SIZE_MAX. intros. apply Z.mod_small. lia. Qed.

Lemma to_int_id z : C.is_int z -> C.to_int z = z.
Proof.
  unfold C.to_int, C.is_int, C.INT_MIN, C.INT_MAX. intros.
  rewrite Z.mod_small; lia.
Qed.

Lemma to_int_is_int z : C.is_int (C.to_int z).
Proof.
  unfold C.to_int, C.is_int, C.INT_MIN, C.INT_MAX.
  pose proof (Z.mod_pos_bound (z + 2147483648) 4294967296). lia.
Qed.

(** ** The conversion %d *)

Lemma nat_of_digit_char d :
  0 <= d < 10 -> nat_of_ascii (digit_char d) = (48 + Z.to_nat d)%nat.
Proof. intros. unfold digit_char. apply nat_ascii_embedding. lia. Qed.

Lemma digit_char_is_digit d : 0 <= d < 10 -> is_digit (digit_char d).
Proof. intros. unfold is_digit. rewrite nat_of_digit_char; lia. Qed.

Lemma digit_char_is_digit1_9 d : 0 < d < 10 -> is_digit1_9 (digit_char d).
Proof. intros. unfold is_digit1_9. rewrite nat_of_digit_char; lia. Qed.

(** With enough fuel the digits of a positive number start with a digit
    that is not 0. *)
Lemma utoa_positive fuel : forall n acc,
  0 < n < 2 ^ Z.of_nat fuel ->
  exists d ds, utoa fuel n acc = d :: ds ++ acc
               /\ is_digit1_9 d /\ Forall is_digit ds.
Proof.
  induction fuel as [|fuel IH]; intros n acc Hn.
  - simpl in Hn. lia.
  - cbn [utoa]. destruct (Z.ltb_spec n 10) as [Hlt|Hge].
    + exists (digit_char (n mod 10)), []. rewrite Z.mod_small by lia.
      split; [reflexivity|]. split; [apply digit_char_is_digit1_9; lia|constructor].
    + destruct (IH (n / 10) (digit_char (n mod 10) :: acc)) as (d & ds & E & Hd & Hds).
      { rewrite Nat2Z.inj_succ, Z.pow_succ_r in Hn by lia.
        split.
        - apply Z.div_str_pos. lia.
        - apply Z.div_lt_upper_bound; lia. }
      exists d, (ds ++ [digit_char (n mod 10)]). rewrite E, <- app_assoc.
      split; [reflexivity|]. split; [assumption|].
      apply Forall_app. split; [assumption|].
      constructor; [|constructor].
      apply digit_char_is_digit. apply Z.mod_pos_bound. lia.
Qed.

Lemma utoa_fuel_enough n : 0 < n -> n < 2 ^ Z.of_nat (utoa_fuel n).
Proof.
  intros Hn. unfold utoa_fuel.
  rewrite Nat2Z.inj_succ, Z2Nat.id by apply Z.log2_nonneg.
  apply Z.log2_spec. assumption.
Qed.

(** The digits of a number: no more of them than the bound asks for. *)
Lemma utoa_length fuel : forall n acc k,
  0 <= n < 10 ^ Z.of_nat (S k) ->
  (length (utoa fuel n acc) <= S k + length acc)%nat.
Proof.
  induction fuel as [|fuel IH]; intros n acc k Hn.
  - simpl. lia.
  - cbn [utoa]. destruct (Z.ltb_spec n 10) as [Hlt|Hge].
    + simpl. lia.
    + destruct k as [|k].
      { simpl in Hn. lia. }
      etransitivity; [apply (IH _ _ k)|simpl; lia].
      rewrite (Nat2Z.inj_succ (S k)), Z.pow_succ_r in Hn by lia.
      split; [apply Z.div_pos; lia|apply Z.div_lt_upper_bound; lia].
Qed.

Lemma utoa_acc fuel : forall n acc, utoa fuel n acc = utoa fuel n [] ++ acc.
Proof.
  induction fuel as [|fuel IH]; intros n acc; cbn [utoa]; [reflexivity|].
  destruct (n <? 10); [reflexivity|].
  rewrite (IH _ (_ :: acc)), (IH _ [_]), <- app_assoc. reflexivity.
Qed.

Lemma decimal_value_snoc s c :
  decimal_value (s ++ [c]) = 10 * decimal_value s + digit_value c.
Proof. unfold decimal_value. rewrite fold_left_app. reflexivity. Qed.

Lemma digit_value_char d : 0 <= d < 10 -> digit_value (digit_char d) = d.
Proof. intros. unfold digit_value. rewrite nat_of_digit_char; lia. Qed.

(** With enough fuel the digits are those of the number. *)
Lemma utoa_value fuel : forall n,
  0 <= n < 2 ^ Z.of_nat fuel -> decimal_value (utoa fuel n []) = n.
Proof.
  induction fuel as [|fuel IH]; intros n Hn.
  - simpl in Hn. replace n with 0 by lia. reflexivity.
  - cbn [utoa]. destruct (Z.ltb_spec n 10) as [Hlt|Hge].
    + rewrite Z.mod_small by lia. unfold decimal_value. cbn [fold_left].
      rewrite digit_value_char; lia.
    + rewrite utoa_acc, decimal_value_snoc, IH.
      * rewrite digit_value_char by (apply Z.mod_pos_bound; lia).
        symmetry. apply Z.div_mod. lia.
      * rewrite Nat2Z.inj_succ, Z.pow_succ_r in Hn by lia.
        split; [apply Z.div_pos; lia|apply Z.div_lt_upper_bound; lia].
Qed.

(** [%d] prints the decimal digits of the number, after a minus sign when it
    is negative. *)
Lemma fmt_d_value z :
  (0 <= z -> decimal_value (fmt_d z) = z)
  /\ (z < 0 -> exists s, fmt_d z = "-"%char :: s /\ decimal_value s = - z).
Proof.
  assert (Hfuel : forall n, 0 <= n -> n < 2 ^ Z.of_nat (utoa_fuel n)).
  { intros n Hn. destruct (Z.eq_dec n 0) as [->|]; [reflexivity|].
    unfold utoa_fuel. rewrite Nat2Z.inj_succ, Z2Nat.id by apply Z.log2_nonneg.
    apply Z.log2_spec. lia. }
  unfold fmt_d. destruct (Z.ltb_spec z 0); split; intros Hz; try lia.
  - eexists. split; [reflexivity|]. apply utoa_value. split; [lia|apply Hfuel; lia].
  - apply utoa_value. split; [lia|apply Hfuel; lia].
Qed.

Lemma utoa_grows fuel : forall n acc,
  (length acc <= length (utoa fuel n acc))%nat.
Proof.
  induction fuel as [|fuel IH]; intros n acc; cbn [utoa]; [lia|].
  destruct (n <? 10); [simpl; lia|].
  etransitivity; [|apply IH]. simpl. lia.
Qed.

Lemma json_number_of_int i : json_int i -> json_number i.
Proof.
  intros Hi. replace i with ([] ++ i ++ [] ++ []) by (simpl; apply app_nil_r).
  constructor; [tauto|assumption|constructor|constructor].
Qed.

Lemma json_number_minus i : json_int i -> json_number ("-"%char :: i).
Proof.
  intros Hi.
  replace ("-"%char :: i) with (["-"%char] ++ i ++ [] ++ [])
    by (simpl; rewrite app_nil_r; reflexivity).
  constructor; [tauto|assumption|constructor|constructor].
Qed.

Lemma fmt_d_number z : json_number (fmt_d z).
Proof.
  unfold fmt_d. destruct (Z.ltb_spec z 0) as [Hneg|Hpos].
  - destruct (utoa_positive (utoa_fuel (- z)) (- z) []) as (d & ds & E & Hd & Hds).
    { split; [lia|apply utoa_fuel_enough; lia]. }
    rewrite E, app_nil_r.
    apply json_number_minus. constructor; assumption.
  - apply json_number_of_int. destruct (Z.eq_dec z 0) as [->|Hnz].
    + constructor.
    + destruct (utoa_positive (utoa_fuel z) z []) as (d & ds & E & Hd & Hds).
      { split; [lia|apply utoa_fuel_enough; lia]. }
      rewrite E, app_nil_r. constructor; assumption.
Qed.

Lemma utoa_fuel_length n :
  0 <= n <= 2147483648 -> (1 <= length (utoa (utoa_fuel n) n []) <= 10)%nat.
Proof.
  intros Hn. split.
  - unfold utoa_fuel. cbn [utoa]. destruct (n <? 10); [simpl; lia|].
    etransitivity; [|apply utoa_grows]. simpl. lia.
  - apply (utoa_length _ n [] 9).
    change (10 ^ Z.of_nat 10) with 10000000000. lia.
Qed.

Lemma fmt_d_length z : C.is_int z -> (1 <= length (fmt_d z) <= 11)%nat.
Proof.
  unfold C.is_int, C.INT_MIN, C.INT_MAX. intros Hz.
  unfold fmt_d. destruct (Z.ltb_spec z 0).
  - destruct (utoa_fuel_length (- z)); [lia|]. cbn [length]. lia.
  - destruct (utoa_fuel_length z); [lia|]. lia.
Qed.

Lemma utoa_digits fuel : forall n acc,
  0 <= n -> Forall is_digit acc -> Forall is_digit (utoa fuel n acc).
Proof.
  induction fuel as [|fuel IH]; intros n acc Hn Hacc; cbn [utoa]; [assumption|].
  assert (Forall is_digit (digit_char (n mod 10) :: acc)).
  { constructor; [|assumption].
    apply digit_char_is_digit, Z.mod_pos_bound. lia. }
  destruct (n <? 10); [assumption|].
  apply IH; [apply Z.div_pos; lia|assumption].
Qed.

Lemma is_digit_not_NUL c : is_digit c -> c <> NUL.
Proof.
  unfold is_digit. intros H ->.
  change (nat_of_ascii NUL) with 0%nat in H. lia.
Qed.

Lemma fmt_d_no_NUL z : Forall (fun c => c <> NUL) (fmt_d z).
Proof.
  assert (Hu : forall n, 0 <= n ->
            Forall (fun c => c <> NUL) (utoa (utoa_fuel n) n [])).
  { intros n Hn. eapply Forall_impl; [apply utoa_digits; [lia|constructor]|].
    apply is_digit_not_NUL. }
  unfold fmt_d. destruct (Z.ltb_spec z 0).
  - constructor; [discriminate|apply Hu; lia].
  - apply Hu. lia.
Qed.

(** ** The text of one event *)

Lemma event_json_eq event :
  event_json event =
    chars "{" ++ [dquote] ++ chars "id" ++ [dquote] ++ chars ":"
    ++ fmt_d (ZoneInfo.id (ZoneEvent.info event))
    ++ chars "," ++ [dquote] ++ chars "t" ++ [dquote] ++ chars ":"
    ++ fmt_d (ZoneEvent.time event)
    ++ chars "," ++ [dquote] ++ chars "on" ++ [dquote] ++ chars ":"
    ++ fmt_d (C.of_bool (demand_eqb (ZoneEvent.demand event) Demand.True))
    ++ chars "}".
Proof. reflexivity. Qed.

Lemma fmt_d_of_bool b : fmt_d (C.of_bool b) = [if b then "1"%char else "0"%char].
Proof. destruct b; reflexivity. Qed.

Lemma event_json_length event :
  length (event_json event) =
    (19 + length (fmt_d (ZoneInfo.id (ZoneEvent.info event)))
        + length (fmt_d (ZoneEvent.time event)))%nat.
Proof.
  rewrite event_json_eq, fmt_d_of_bool.
  repeat (rewrite ?length_app, ?length_cons; cbn [chars list_ascii_of_string length]).
  lia.
Qed.

Lemma event_json_bounds event :
  event_ints event -> (21 <= length (event_json event) <= 41)%nat.
Proof.
  intros [Hid Ht]. rewrite event_json_length.
  pose proof (fmt_d_length _ Hid). pose proof (fmt_d_length _ Ht). lia.
Qed.

Lemma event_json_no_NUL event : Forall (fun c => c <> NUL) (event_json event).
Proof.
  rewrite event_json_eq.
  repeat (apply Forall_app; split);
    try apply fmt_d_no_NUL;
    repeat (constructor; try discriminate).
Qed.

Lemma json_key name :
  Forall is_unescaped (chars name) -> json_string (dquote :: chars name ++ [dquote]).
Proof.
  intros H.
  replace (chars name) with (concat (map (fun c => [c]) (chars name))).
  - constructor. apply Forall_map. eapply Forall_impl; [exact H|].
    intros c Hc. constructor. exact Hc.
  - clear H. induction (chars name) as [|c l IH]; [reflexivity|].
    simpl. now rewrite IH.
Qed.

Lemma is_unescaped_letter c :
  (97 <= nat_of_ascii c <= 122)%nat -> is_unescaped c.
Proof.
  intros H. repeat split; [lia|intros ->..].
  - change (nat_of_ascii dquote) with 34%nat in H. lia.
  - change (nat_of_ascii backslash) with 92%nat in H. lia.
Qed.

Lemma event_json_value event : json_value (event_json event).
Proof.
  rewrite event_json_eq.
  set (i := fmt_d (ZoneInfo.id _)). set (t := fmt_d (ZoneEvent.time _)).
  set (o := fmt_d (C.of_bool _)).
  assert (Hk : forall name, Forall (fun c => (97 <= nat_of_ascii c <= 122)%nat) (chars name) ->
                 json_string (dquote :: chars name ++ [dquote])).
  { intros name H. apply json_key. eapply Forall_impl; [exact H|].
    apply is_unescaped_letter. }
  assert (Hm : json_members
    ((dquote :: chars "id" ++ [dquote]) ++ ":"%char :: i ++ ","%char ::
     (dquote :: chars "t" ++ [dquote]) ++ ":"%char :: t ++ ","%char ::
     (dquote :: chars "on" ++ [dquote]) ++ ":"%char :: o)).
  { apply json_members_more;
      [apply Hk; repeat constructor; simpl; lia
      |apply json_of_number, fmt_d_number|].
    apply json_members_more;
      [apply Hk; repeat constructor; simpl; lia
      |apply json_of_number, fmt_d_number|].
    apply json_members_one;
      [apply Hk; repeat constructor; simpl; lia
      |apply json_of_number, fmt_d_number]. }
  apply json_object in Hm.
  match goal with
  | H : json_value ?a |- json_value ?b => replace b with a; [exact H|]
  end.
  cbn [chars list_ascii_of_string app].
  repeat (rewrite <- app_assoc; cbn [app]). reflexivity.
Qed.

(** ** Stores into a buffer *)

Lemma sizeof_app a b : sizeof (a ++ b) = sizeof a + sizeof b.
Proof. unfold sizeof. rewrite length_app. lia. Qed.

Lemma sizeof_cons c a : sizeof (c :: a) = 1 + sizeof a.
Proof. unfold sizeof. cbn [length]. lia. Qed.

Lemma sizeof_nonneg a : 0 <= sizeof a.
Proof. unfold sizeof. lia. Qed.

Lemma store_app pre c0 post c :
  store (pre ++ c0 :: post) (sizeof pre) c = Some (pre ++ c :: post).
Proof.
  unfold store. rewrite sizeof_app, sizeof_cons.
  pose proof (sizeof_nonneg pre). pose proof (sizeof_nonneg post).
  destruct (Z.leb_spec 0 (sizeof pre)); [|lia].
  destruct (Z.ltb_spec (sizeof pre) (sizeof pre + (1 + sizeof post))); [|lia].
  cbn [andb]. f_equal. unfold sizeof. rewrite Nat2Z.id.
  rewrite insert_app_r_alt by lia. rewrite Nat.sub_diag. reflexivity.
Qed.

Lemma store_bytes_app s : forall pre mid post,
  length mid = length s ->
  store_bytes (pre ++ mid ++ post) (sizeof pre) s = Some (pre ++ s ++ post).
Proof.
  induction s as [|c s IH]; intros pre mid post Hlen.
  - destruct mid; [reflexivity|discriminate].
  - destruct mid as [|m mid]; [discriminate|].
    cbn [store_bytes app]. rewrite store_app. cbn [mbind option_bind].
    replace (sizeof pre + 1) with (sizeof (pre ++ [c]))
      by (rewrite sizeof_app, sizeof_cons; reflexivity).
    replace (pre ++ c :: mid ++ post) with ((pre ++ [c]) ++ mid ++ post)
      by (rewrite <- app_assoc; reflexivity).
    rewrite (IH (pre ++ [c]) mid post) by (simpl in Hlen; lia).
    rewrite <- app_assoc. reflexivity.
Qed.

(** [snprintf] stays within the [n] bytes it is given, and stores the whole
    expansion and a NUL when they fit. *)
Lemma snprintf_spec pre junk n fmt args :
  0 <= n <= sizeof junk ->
  exists junk',
    snprintf (pre ++ junk) (sizeof pre) n fmt args
      = Some (pre ++ junk', sizeof (format fmt args))
    /\ length junk' = length junk
    /\ (sizeof (format fmt args) < n ->
        exists rest, junk' = format fmt args ++ NUL :: rest).
Proof.
  intros Hn. unfold snprintf. set (s := format fmt args).
  destruct (Z.eqb_spec n 0) as [->|Hn0].
  - exists junk. split; [reflexivity|]. split; [reflexivity|].
    pose proof (sizeof_nonneg s). lia.
  - set (w := take (Z.to_nat (n - 1)) s ++ [NUL]).
    assert (Hw : (length w <= length junk)%nat).
    { subst w. rewrite length_app, length_take. unfold sizeof in Hn.
      cbn [length]. lia. }
    replace (pre ++ junk)
      with (pre ++ take (length w) junk ++ drop (length w) junk)
      by (rewrite take_drop; reflexivity).
    rewrite (store_bytes_app w pre (take (length w) junk))
      by (rewrite length_take; lia).
    exists (w ++ drop (length w) junk). split; [reflexivity|].
    split.
    + rewrite length_app, length_drop. lia.
    + intros Hfit. exists (drop (length w) junk). subst w.
      rewrite take_ge by (unfold sizeof in Hfit; lia).
      rewrite <- app_assoc. reflexivity.
Qed.

(** ** One event into the buffer *)

Lemma write_event_json_spec event pre junk bsz comma :
  event_ints event ->
  0 <= bsz <= sizeof junk -> sizeof junk <= C.INT_MAX ->
  exists junk' r,
    write_event_json event (pre ++ junk) (sizeof pre) bsz comma
      = Some (pre ++ junk', r)
    /\ length junk' = length junk
    /\ (sizeof (element comma event) < bsz ->
        r = sizeof (element comma event)
        /\ exists rest, junk' = element comma event ++ NUL :: rest)
    /\ (bsz <= sizeof (element comma event) -> r = -1).
Proof.
  intros Hints Hb Hmax. unfold C.INT_MAX in Hmax.
  pose proof (event_json_bounds event Hints) as Hlen.
  assert (Hsz : sizeof (element comma event)
                = C.of_bool comma + sizeof (event_json event)).
  { unfold element. rewrite sizeof_app. destruct comma; reflexivity. }
  assert (Hej : 21 <= sizeof (event_json event) <= 41) by (unfold sizeof; lia).
  unfold write_event_json.
  destruct (comma && (2 <=? bsz)) eqn:Hc.
  - apply andb_prop in Hc. destruct Hc as [-> Hc]. apply Z.leb_le in Hc.
    destruct junk as [|j0 junk1].
    { unfold sizeof in Hb. simpl in Hb. lia. }
    rewrite sizeof_cons in Hb, Hmax.
    rewrite store_app. cbn [mbind option_bind].
    rewrite (to_size_t_id (bsz - 1)) by (unfold C.SIZE_MAX; lia).
    replace (sizeof pre + 1) with (sizeof (pre ++ [","%char]))
      by (rewrite sizeof_app, sizeof_cons; reflexivity).
    replace (pre ++ ","%char :: junk1) with ((pre ++ [","%char]) ++ junk1)
      by (rewrite <- app_assoc; reflexivity).
    destruct (snprintf_spec (pre ++ [","%char]) junk1 (bsz - 1)
                ZONE_JSON_STRING (event_args event)) as (junk' & E & Hl & Hfit);
      [lia|].
    rewrite E. cbn [mbind option_bind]. fold (event_json event) in *.
    rewrite (to_size_t_id (sizeof (event_json event))) by (unfold C.SIZE_MAX; lia).
    exists (","%char :: junk').
    destruct (Z.leb_spec (bsz - 1) (sizeof (event_json event))) as [Hle|Hgt].
    + exists (-1). rewrite <- app_assoc. split; [reflexivity|].
      split; [simpl; lia|]. cbn [C.of_bool] in Hsz. split; [lia|reflexivity].
    + eexists. rewrite <- app_assoc. split; [reflexivity|].
      split; [simpl; lia|]. cbn [C.of_bool] in *.
      rewrite to_size_t_id by (unfold C.SIZE_MAX; lia).
      rewrite to_int_id by (unfold C.is_int, C.INT_MIN, C.INT_MAX; lia).
      split; [|lia]. intros _. split; [lia|].
      destruct (Hfit Hgt) as [rest ->]. exists rest. reflexivity.
  - cbn [mbind option_bind].
    destruct (snprintf_spec pre junk bsz
                ZONE_JSON_STRING (event_args event)) as (junk' & E & Hl & Hfit);
      [lia|].
    rewrite E. cbn [mbind option_bind]. fold (event_json event) in *.
    rewrite (to_size_t_id (sizeof (event_json event))) by (unfold C.SIZE_MAX; lia).
    exists junk'.
    destruct (Z.leb_spec bsz (sizeof (event_json event))) as [Hle|Hgt].
    + exists (-1). split; [reflexivity|]. split; [assumption|].
      split; [|reflexivity]. destruct comma; cbn [C.of_bool] in Hsz; lia.
    + assert (comma = false) as ->.
      { destruct comma; [|reflexivity]. cbn [andb] in Hc.
        apply Z.leb_gt in Hc. lia. }
      eexists. split; [reflexivity|]. split; [assumption|].
      cbn [C.of_bool] in *.
      rewrite to_size_t_id by (unfold C.SIZE_MAX; lia).
      rewrite to_int_id by (unfold C.is_int, C.INT_MIN, C.INT_MAX; lia).
      split; [|lia]. intros _. split; [lia|].
      destruct (Hfit Hgt) as [rest ->]. exists rest. reflexivity.
Qed.

(** ** The loop of the encoder *)

Lemma element_body first event rest :
  events_json_body first (event :: rest)
  = element (negb first) event ++ events_json_body false rest.
Proof.
  unfold element. cbn [events_json_body].
  destruct first; cbn [negb]; rewrite <- app_assoc; reflexivity.
Qed.

Lemma events_loop_spec events : forall first pre junk,
  Forall event_ints events ->
  2 <= sizeof junk -> sizeof pre + sizeof junk <= C.INT_MAX ->
  exists k junk',
    (k <= length events)%nat
    /\ events_loop (sizeof pre + sizeof junk) events first (sizeof pre) (pre ++ junk)
       = Some (pre ++ events_json_body first (take k events) ++ junk',
               sizeof pre + sizeof (events_json_body first (take k events)))
    /\ sizeof (events_json_body first (take k events)) + sizeof junk' = sizeof junk
    /\ 2 <= sizeof junk'
    /\ ((k < length events)%nat ->
        sizeof junk < sizeof (events_json_body first (take (S k) events)) + 2).
Proof.
  induction events as [|event rest IH]; intros first pre junk Hints Hjunk Hmax.
  - exists O, junk. cbn [take events_json_body app length events_loop].
    change (sizeof []) with 0.
    repeat split; try lia. f_equal. f_equal. lia.
  - apply Forall_cons in Hints. destruct Hints as [Hint Hints].
    pose proof (sizeof_nonneg pre) as Hpre. unfold C.INT_MAX in Hmax.
    cbn [events_loop].
    replace (sizeof pre + sizeof junk - sizeof pre - 1) with (sizeof junk - 1) by lia.
    rewrite (to_size_t_id (sizeof junk - 1)) by (unfold C.SIZE_MAX; lia).
    rewrite to_int_id by (unfold C.is_int, C.INT_MIN, C.INT_MAX; lia).
    rewrite (to_size_t_id (sizeof junk - 1)) by (unfold C.SIZE_MAX; lia).
    destruct (write_event_json_spec event pre junk (sizeof junk - 1) (negb first))
      as (junk' & r & E & Hl & Hfit & Hfail);
      [assumption|lia|unfold C.INT_MAX; lia|].
    rewrite E. cbn [mbind option_bind].
    set (elem := element (negb first) event) in *.
    pose proof (sizeof_nonneg elem) as Helem.
    destruct (Z.lt_ge_cases (sizeof elem) (sizeof junk - 1)) as [Hlt|Hge].
    + destruct (Hfit Hlt) as [-> [tl ->]].
      destruct (Z.ltb_spec (sizeof elem) 0); [lia|].
      assert (Hsz : sizeof elem + sizeof (NUL :: tl) = sizeof junk).
      { unfold sizeof in *. rewrite length_app in Hl. lia. }
      rewrite (to_size_t_id (sizeof elem)) by (unfold C.SIZE_MAX; lia).
      rewrite (to_size_t_id (sizeof pre + sizeof elem)) by (unfold C.SIZE_MAX; lia).
      destruct (IH false (pre ++ elem) (NUL :: tl)) as (k & junk'' & Hk & E' & Hs & H2 & Hstop);
        [assumption|lia|rewrite sizeof_app; unfold C.INT_MAX; lia|].
      rewrite sizeof_app in E'.
      replace (sizeof pre + sizeof elem + sizeof (NUL :: tl))
        with (sizeof pre + sizeof junk) in E' by lia.
      rewrite <- app_assoc in E'. rewrite E'.
      exists (S k), junk''. cbn [take length]. rewrite element_body. fold elem.
      split; [lia|]. split.
      { f_equal. f_equal.
        - rewrite <- !app_assoc. reflexivity.
        - rewrite sizeof_app. lia. }
      split; [rewrite sizeof_app; lia|]. split; [assumption|].
      intros Hlen. rewrite element_body. fold elem. rewrite sizeof_app.
      specialize (Hstop ltac:(lia)). lia.
    + rewrite (Hfail Hge). change (-1 <? 0) with true. cbn iota.
      assert (Hl' : sizeof junk' = sizeof junk) by (unfold sizeof; lia).
      exists O, junk'. split; [cbn [length]; lia|].
      change (take 1 (event :: rest)) with (event :: take 0 rest).
      rewrite element_body. fold elem. rewrite sizeof_app.
      pose proof (sizeof_nonneg (events_json_body false (take 0 rest))).
      cbn [take events_json_body app]. change (sizeof []) with 0.
      split; [f_equal; f_equal; lia|].
      split; [lia|]. split; lia.
Qed.

Lemma sizeof_events_json events :
  sizeof (events_json events) = sizeof (events_json_body true events) + 2.
Proof.
  unfold events_json. rewrite sizeof_cons, sizeof_app.
  unfold sizeof. simpl. lia.
Qed.

(** The encoder stores the array of the longest prefix of the log that fits,
    and a NUL, and stays within the buffer. *)
Lemma update_event_json_spec buf events :
  3 <= sizeof buf <= C.INT_MAX -> Forall event_ints events ->
  exists k rest,
    (k <= length events)%nat
    /\ update_event_json buf events
       = Some (events_json (take k events) ++ NUL :: rest,
               sizeof (events_json (take k events)))
    /\ sizeof (events_json (take k events) ++ NUL :: rest) = sizeof buf
    /\ fits (sizeof buf) (take k events)
    /\ ((k < length events)%nat -> ~ fits (sizeof buf) (take (S k) events)).
Proof.
  intros Hsz Hints. unfold update_event_json.
  destruct (Z.ltb_spec (sizeof buf) 3); [lia|].
  destruct buf as [|b0 junk]; [unfold sizeof in Hsz; simpl in Hsz; lia|].
  rewrite sizeof_cons in *. unfold C.INT_MAX in Hsz.
  change (store (b0 :: junk) 0 "["%char)
    with (store ([] ++ b0 :: junk) (sizeof []) "["%char).
  rewrite store_app. cbn [mbind option_bind app].
  destruct (events_loop_spec events true ["["%char] junk)
    as (k & junk' & Hk & E & Hs & H2 & Hstop);
    [assumption|lia|unfold C.INT_MAX; change (sizeof ["["%char]) with 1; lia|].
  change (sizeof ["["%char]) with 1 in E. cbn [app] in E. rewrite E.
  cbn [mbind option_bind]. set (body := events_json_body true (take k events)) in *.
  destruct junk' as [|j0 [|j1 tl]];
    [unfold sizeof in H2; simpl in H2; lia..|].
  pose proof (sizeof_nonneg body) as Hbody.
  pose proof (sizeof_nonneg tl) as Htl. rewrite !sizeof_cons in Hs.
  replace (1 + sizeof body) with (sizeof ("["%char :: body))
    by (rewrite sizeof_cons; reflexivity).
  change ("["%char :: body ++ j0 :: j1 :: tl)
    with (("["%char :: body) ++ j0 :: j1 :: tl).
  rewrite store_app. cbn [mbind option_bind].
  rewrite to_size_t_id by (rewrite sizeof_cons; unfold C.SIZE_MAX; lia).
  replace (sizeof ("["%char :: body) + 1)
    with (sizeof (("["%char :: body) ++ ["]"%char]))
    by (rewrite sizeof_app; reflexivity).
  replace (("["%char :: body) ++ "]"%char :: j1 :: tl)
    with ((("["%char :: body) ++ ["]"%char]) ++ j1 :: tl)
    by (rewrite <- app_assoc; reflexivity).
  rewrite store_app. cbn [mbind option_bind].
  change (("["%char :: body) ++ ["]"%char]) with (events_json (take k events)).
  pose proof (sizeof_events_json (take k events)) as Hej. fold body in Hej.
  rewrite to_int_id by (unfold C.is_int, C.INT_MIN, C.INT_MAX; lia).
  exists k, tl. split; [assumption|]. split; [reflexivity|].
  split; [rewrite sizeof_app, sizeof_cons; lia|].
  unfold fits. fold (sizeof (events_json (take k events))).
  split; [lia|].
  intros Hlt Hfits. specialize (Hstop Hlt).
  fold (sizeof (events_json (take (S k) events))) in Hfits.
  rewrite sizeof_events_json in Hfits. lia.
Qed.

(** ** C strings and JSON arrays *)

Lemma c_str_app s rest :
  Forall (fun c => c <> NUL) s -> c_str (s ++ NUL :: rest) = Some s.
Proof.
  induction 1 as [|c s Hc Hs IH]; [reflexivity|].
  cbn [app c_str]. destruct (Ascii.eqb_spec c NUL); [contradiction|].
  rewrite IH. reflexivity.
Qed.

Lemma events_json_body_no_NUL events : forall first,
  Forall (fun c => c <> NUL) (events_json_body first events).
Proof.
  induction events as [|event rest IH]; intros first; [constructor|].
  cbn [events_json_body]. repeat (apply Forall_app; split).
  - destruct first; repeat (constructor; try discriminate).
  - apply event_json_no_NUL.
  - apply IH.
Qed.

Lemma events_json_no_NUL events : Forall (fun c => c <> NUL) (events_json events).
Proof.
  unfold events_json. constructor; [discriminate|].
  apply Forall_app. split; [apply events_json_body_no_NUL|].
  repeat (constructor; try discriminate).
Qed.

Lemma events_json_elements rest : forall event,
  json_elements (event_json event ++ events_json_body false rest).
Proof.
  induction rest as [|next rest IH]; intros event.
  - cbn [events_json_body]. rewrite app_nil_r.
    apply json_elements_one, event_json_value.
  - cbn [events_json_body app].
    apply json_elements_more; [apply event_json_value|apply IH].
Qed.

Lemma events_json_array events : json_array_text (events_json events).
Proof.
  split; [|reflexivity]. destruct events as [|event rest].
  - apply json_empty_array.
  - unfold events_json. cbn [events_json_body app].
    apply json_array, events_json_elements.
Qed.

(** ** The encoder: safety *)

(** C1. For every log (events whose fields hold [int]s) and every buffer of
    at least 3 bytes (and of at most [INT_MAX] bytes, the largest array the
    target has), [update_event_json] makes no store outside of the buffer,
    leaves in it a NUL-terminated JSON array, "[]" at least, which is the
    array of a prefix of the log, and returns the length of that text, the
    NUL not counted. *)
Theorem encoder_safety (buf : list ascii) (events : list ZoneEvent.t) :
  3 <= sizeof buf <= C.INT_MAX ->
  Forall event_ints events ->
  exists buf' n s,
    update_event_json buf events = Some (buf', n)
    /\ sizeof buf' = sizeof buf
    /\ c_str buf' = Some s
    /\ json_array_text s
    /\ (exists k, s = events_json (take k events))
    /\ 2 <= sizeof s < sizeof buf
    /\ n = sizeof s.
Proof.
  intros Hsz Hints.
  destruct (update_event_json_spec buf events Hsz Hints)
    as (k & rest & Hk & E & Hlen & Hfits & _).
  exists (events_json (take k events) ++ NUL :: rest),
         (sizeof (events_json (take k events))),
         (events_json (take k events)).
  split; [exact E|]. split; [exact Hlen|].
  split; [apply c_str_app, events_json_no_NUL|].
  split; [apply events_json_array|].
  split; [exists k; reflexivity|].
  split; [|reflexivity].
  rewrite sizeof_events_json.
  pose proof (sizeof_nonneg (events_json_body true (take k events))).
  unfold fits in Hfits. fold (sizeof (events_json (take k events))) in Hfits.
  rewrite sizeof_events_json in Hfits. lia.
Qed.

Lemma encoder_safety_witness :
  exists buf' n s,
    update_event_json (replicate 60 "x"%char) [sample_event; sample_event; sample_event]
      = Some (buf', n)
    /\ sizeof buf' = sizeof (replicate 60 "x"%char)
    /\ c_str buf' = Some s
    /\ json_array_text s
    /\ (exists k, s = events_json (take k [sample_event; sample_event; sample_event]))
    /\ 2 <= sizeof s < sizeof (replicate 60 "x"%char)
    /\ n = sizeof s.
Proof.
  apply encoder_safety.
  - unfold sizeof, C.INT_MAX. simpl. lia.
  - repeat constructor; unfold C.INT_MIN, C.INT_MAX; simpl; lia.
Defined.

Lemma scenario_C_event_json event :
  scenario_C_event event -> event_json event = scenario_C_text.
Proof.
  destruct event as [[i p c d] t d']. unfold scenario_C_event. cbn.
  intros (-> & -> & ->). reflexivity.
Qed.

Lemma scenario_C_event_ints event : scenario_C_event event -> event_ints event.
Proof.
  intros (Hi & Ht & _). unfold event_ints, C.is_int, C.INT_MIN, C.INT_MAX.
  rewrite Hi, Ht. lia.
Qed.

(** C6 (as the code has it). The text of an event of scenario C has 24
    characters, so a buffer holds the first event only from 27 bytes on.  In a
    buffer of 3 to 26 bytes, 25 among them, the two events of scenario C give
    "[]"; in a buffer of 27 to 51 bytes they give the array of the first
    event alone, 26 characters and a NUL, the second event dropped whole. *)
Theorem truncation_scenario (buf : list ascii) (e1 e2 : ZoneEvent.t) :
  scenario_C_event e1 -> scenario_C_event e2 ->
  3 <= sizeof buf <= 51 ->
  let out := if sizeof buf <? 27
             then chars "[]"
             else "["%char :: scenario_C_text ++ ["]"%char] in
  exists rest,
    update_event_json buf [e1; e2] = Some (out ++ NUL :: rest, sizeof out)
    /\ c_str (out ++ NUL :: rest) = Some out
    /\ sizeof out + 1 <= sizeof buf.
Proof.
  intros H1 H2 Hsz out.
  destruct (update_event_json_spec buf [e1; e2])
    as (k & rest & Hk & E & _ & Hfits & Hstop).
  { unfold C.INT_MAX. lia. }
  { repeat constructor; apply scenario_C_event_ints; assumption. }
  assert (S0 : sizeof (events_json []) = 2) by reflexivity.
  assert (S1 : events_json [e1] = "["%char :: scenario_C_text ++ ["]"%char]).
  { unfold events_json. cbn [events_json_body app].
    rewrite (scenario_C_event_json e1 H1), app_nil_r. reflexivity. }
  assert (S2 : sizeof (events_json [e1; e2]) = 51).
  { unfold events_json. cbn [events_json_body app].
    rewrite (scenario_C_event_json e1 H1), (scenario_C_event_json e2 H2).
    reflexivity. }
  assert (S1' : sizeof (events_json [e1]) = 26) by (rewrite S1; reflexivity).
  unfold fits in *.
  assert (Hout : events_json (take k [e1; e2]) = out
                 /\ sizeof out + 1 <= sizeof buf).
  { subst out. destruct k as [|[|[|k]]]; cbn [take length] in *.
    - specialize (Hstop ltac:(lia)).
      fold (sizeof (events_json [e1])) in Hstop.
      destruct (Z.ltb_spec (sizeof buf) 27); [|lia].
      split; [reflexivity|]. change (sizeof (chars "[]")) with 2. lia.
    - fold (sizeof (events_json [e1])) in Hfits.
      destruct (Z.ltb_spec (sizeof buf) 27); [lia|].
      rewrite <- S1. split; [reflexivity|lia].
    - fold (sizeof (events_json [e1; e2])) in Hfits. lia.
    - simpl in Hk. lia. }
  destruct Hout as [Hout Hroom].
  rewrite Hout in *. exists rest. split; [exact E|].
  split; [|exact Hroom].
  apply c_str_app. rewrite <- Hout. apply events_json_no_NUL.
Qed.

Lemma truncation_scenario_witness :
  let buf := replicate 27 "x"%char in
  let out := if sizeof buf <? 27
             then chars "[]"
             else "["%char :: scenario_C_text ++ ["]"%char] in
  exists rest,
    update_event_json buf [sample_event; sample_event]
      = Some (out ++ NUL :: rest, sizeof out)
    /\ c_str (out ++ NUL :: rest) = Some out
    /\ sizeof out + 1 <= sizeof buf.
Proof.
  apply (truncation_scenario (replicate 27 "x"%char) sample_event sample_event).
  - repeat split.
  - repeat split.
  - unfold sizeof. simpl. lia.
Defined.

(** C6 as the specification states it does not hold: in a buffer of 25 bytes
    the two events give "[]", not the array of the first event, whose text
    and NUL take 27 bytes. *)
Lemma truncation_scenario_counterexample :
  (exists buf',
     update_event_json (replicate 25 "x"%char) [sample_event; sample_event]
       = Some (buf', 2)
     /\ c_str buf' = Some (chars "[]"))
  /\ event_json sample_event = scenario_C_text
  /\ length scenario_C_text = 24%nat
  /\ ~ (exists buf' n,
         update_event_json (replicate 25 "x"%char) [sample_event; sample_event]
           = Some (buf', n)
         /\ c_str buf' = Some ("["%char :: scenario_C_text ++ ["]"%char])).
Proof.
  destruct (update_event_json (replicate 25 "x"%char) [sample_event; sample_event])
    as [[buf n]|] eqn:E; vm_compute in E; [|discriminate E].
  injection E as <- <-.
  split; [eexists; split; reflexivity|].
  split; [reflexivity|]. split; [reflexivity|].
  intros (buf' & n & E' & Hs). injection E' as <- <-.
  vm_compute in Hs. discriminate Hs.
Qed.

(** C7. A buffer of less than 3 bytes is left as it is, whatever the log
    holds, and the result is 0. *)
Theorem encoder_min_bound (buf : list ascii) (events : list ZoneEvent.t) :
  sizeof buf < 3 -> update_event_json buf events = Some (buf, 0).
Proof.
  intros Hsz. unfold update_event_json.
  destruct (Z.ltb_spec (sizeof buf) 3); [reflexivity|lia].
Qed.

Lemma encoder_min_bound_witness :
  update_event_json (replicate 2 "x"%char) [sample_event]
    = Some (replicate 2 "x"%char, 0).
Proof.
  apply encoder_min_bound. unfold sizeof. simpl. lia.
Defined.

(** ** The debouncer *)

Lemma demand_eqb_eq a b : demand_eqb a b = true <-> a = b.
Proof. destruct a, b; simpl; split; congruence. Qed.

Lemma demand_eqb_neq a b : demand_eqb a b = false <-> a <> b.
Proof. destruct a, b; simpl; split; congruence. Qed.

Lemma observe_id level zone : ZoneInfo.id (observe level zone) = ZoneInfo.id zone.
Proof.
  unfold observe. destruct level; cbn;
    repeat match goal with |- context [if ?b then _ else _] => destruct b; cbn end;
    reflexivity.
Qed.

Lemma observe_pin level zone : ZoneInfo.pin (observe level zone) = ZoneInfo.pin zone.
Proof.
  unfold observe. destruct level; cbn;
    repeat match goal with |- context [if ?b then _ else _] => destruct b; cbn end;
    reflexivity.
Qed.

(** The counter after an observation, for a counter within its bounds: one
    step, then the bound. *)
Lemma observe_count level zone :
  count_in_range zone ->
  ZoneInfo.count (observe level zone)
  = match level with
    | HIGH => Z.max HYST_MIN (ZoneInfo.count zone - 1)
    | LOW => Z.min HYST_MAX (ZoneInfo.count zone + 5)
    end.
Proof.
  unfold count_in_range, HYST_MIN, HYST_MAX. intros Hc.
  unfold observe, HYST_MIN, HYST_MAX, HYST_THRESH_ON, HYST_THRESH_OFF.
  destruct level; cbn;
    rewrite to_int_id by (unfold C.is_int, C.INT_MIN, C.INT_MAX; lia);
    repeat match goal with
           | |- context [if ?a <? ?b then _ else _] =>
               destruct (Z.ltb_spec a b); cbn
           | |- context [if ?a >? ?b then _ else _] =>
               rewrite (Z.gtb_ltb a b); destruct (Z.ltb_spec b a); cbn
           end; lia.
Qed.

Lemma observe_in_range level zone :
  count_in_range zone -> count_in_range (observe level zone).
Proof.
  intros Hc. unfold count_in_range. rewrite observe_count by assumption.
  unfold count_in_range, HYST_MIN, HYST_MAX in *. destruct level; lia.
Qed.

(** The demand after an observation is the comparison of the counter as it
    is stored, that is after the bound was applied. *)
Lemma observe_demand level zone :
  ZoneInfo.demand (observe level zone)
  = threshold_compare level (ZoneInfo.count (observe level zone))
                      (ZoneInfo.demand zone).
Proof.
  destruct zone as [i p c d]. unfold observe, threshold_compare.
  destruct level; cbn.
  - destruct (C.to_int (c - 1) <? HYST_MIN); cbn.
    + reflexivity.
    + destruct (C.to_int (c - 1) <? HYST_THRESH_OFF) eqn:E; cbn; rewrite E;
        reflexivity.
  - destruct (C.to_int (c + 5) >? HYST_MAX); cbn.
    + reflexivity.
    + destruct (C.to_int (c + 5) >? HYST_THRESH_ON) eqn:E; cbn; rewrite E;
        reflexivity.
Qed.

Lemma observe_trace_in_range levels : forall zone,
  count_in_range zone -> Forall count_in_range (observe_trace levels zone).
Proof.
  induction levels as [|level rest IH]; intros zone Hc; cbn; constructor.
  - apply observe_in_range, Hc.
  - apply IH, observe_in_range, Hc.
Qed.

(** C2. From a counter within [HYST_MIN, HYST_MAX], as the counters are
    initialised, the counter is within these bounds after every observation
    of any sequence of readings; and at every observation the demand is
    decided by comparing the bounded counter, the one that is stored, with
    the threshold. *)
Theorem hysteresis_bound (levels : list level_t) (zone : ZoneInfo.t) :
  count_in_range zone ->
  Forall count_in_range (observe_trace levels zone)
  /\ forall level z,
       (z = zone \/ In z (observe_trace levels zone)) ->
       HYST_MIN <= ZoneInfo.count (observe level z) <= HYST_MAX
       /\ ZoneInfo.demand (observe level z)
          = threshold_compare level (ZoneInfo.count (observe level z))
                              (ZoneInfo.demand z).
Proof.
  intros Hc. pose proof (observe_trace_in_range levels zone Hc) as Htrace.
  split; [exact Htrace|].
  intros level z Hz. split; [|apply observe_demand].
  apply observe_in_range. destruct Hz as [->|Hin]; [exact Hc|].
  rewrite Forall_forall in Htrace. apply Htrace. apply list_elem_of_In, Hin.
Qed.

Lemma hysteresis_bound_witness :
  let zone := ZoneInfo.mk 0 D4 250 Demand.Unknown in
  let levels := [LOW; LOW; HIGH; LOW; HIGH; HIGH] in
  Forall count_in_range (observe_trace levels zone)
  /\ forall level z,
       (z = zone \/ In z (observe_trace levels zone)) ->
       HYST_MIN <= ZoneInfo.count (observe level z) <= HYST_MAX
       /\ ZoneInfo.demand (observe level z)
          = threshold_compare level (ZoneInfo.count (observe level z))
                              (ZoneInfo.demand z).
Proof.
  apply hysteresis_bound. unfold count_in_range, HYST_MIN, HYST_MAX. simpl. lia.
Defined.

(** ** Runs of readings that say the zone is on *)

Lemma observe_all_cons level levels zone :
  observe_all (level :: levels) zone = observe_all levels (observe level zone).
Proof. reflexivity. Qed.

Lemma low_run_in_range (n : nat) : forall zone,
  count_in_range zone -> count_in_range (observe_all (replicate n LOW) zone).
Proof.
  induction n as [|n IH]; intros zone Hc; [exact Hc|].
  cbn [replicate]. rewrite observe_all_cons. apply IH, observe_in_range, Hc.
Qed.

(** After [n] readings [LOW] in a row the counter has gone up by 5 at each
    of them, up to its bound. *)
Lemma low_run_count (n : nat) : forall zone,
  count_in_range zone ->
  ZoneInfo.count (observe_all (replicate n LOW) zone)
  = Z.min HYST_MAX (ZoneInfo.count zone + 5 * Z.of_nat n).
Proof.
  induction n as [|n IH]; intros zone Hc.
  - cbn [replicate observe_all fold_left]. unfold count_in_range in Hc. lia.
  - cbn [replicate]. rewrite observe_all_cons.
    rewrite IH by (apply observe_in_range, Hc).
    rewrite observe_count by exact Hc. lia.
Qed.

Lemma low_run_True (n : nat) : forall zone,
  ZoneInfo.demand zone = Demand.True ->
  ZoneInfo.demand (observe_all (replicate n LOW) zone) = Demand.True.
Proof.
  induction n as [|n IH]; intros zone Hd; [exact Hd|].
  cbn [replicate]. rewrite observe_all_cons. apply IH.
  rewrite observe_demand. unfold threshold_compare.
  destruct (_ >? _); [reflexivity|exact Hd].
Qed.

(** The demand is on once the counter is above the threshold, and is left as
    it was until then. *)
Lemma low_run_demand (n : nat) : forall zone,
  count_in_range zone -> ZoneInfo.count zone <= HYST_THRESH_ON ->
  ZoneInfo.demand (observe_all (replicate n LOW) zone)
  = if ZoneInfo.count zone + 5 * Z.of_nat n >? HYST_THRESH_ON
    then Demand.True else ZoneInfo.demand zone.
Proof.
  unfold HYST_THRESH_ON.
  induction n as [|n IH]; intros zone Hc Hle.
  - cbn [replicate observe_all fold_left].
    rewrite Z.gtb_ltb.
    destruct (Z.ltb_spec 400 (ZoneInfo.count zone + 5 * Z.of_nat 0));
      [lia|reflexivity].
  - cbn [replicate]. rewrite observe_all_cons.
    pose proof (observe_in_range LOW zone Hc) as Hc1.
    pose proof (observe_count LOW zone Hc) as Hcount. cbn iota in Hcount.
    pose proof (observe_demand LOW zone) as Hdemand.
    unfold threshold_compare, HYST_THRESH_ON in Hdemand.
    unfold count_in_range, HYST_MIN, HYST_MAX in *.
    rewrite Z.gtb_ltb in Hdemand.
    rewrite Z.gtb_ltb.
    destruct (Z.ltb_spec 400 (ZoneInfo.count (observe LOW zone))) as [Hon|Hoff].
    + rewrite low_run_True by exact Hdemand.
      destruct (Z.ltb_spec 400 (ZoneInfo.count zone + 5 * Z.of_nat (S n)));
        [reflexivity|lia].
    + rewrite IH by (assumption || lia). rewrite Hdemand, Hcount.
      rewrite Z.gtb_ltb.
      replace (Z.min 500 (ZoneInfo.count zone + 5) + 5 * Z.of_nat n)
        with (ZoneInfo.count zone + 5 * Z.of_nat (S n)) by lia.
      reflexivity.
Qed.

(** ** One iteration of the loop over the zones *)

Lemma iteration_event_ints env zone k :
  C.is_int (ZoneInfo.id zone) -> event_ints (iteration_event env zone k).
Proof.
  intros Hid. split; cbn.
  - unfold poll_zone. rewrite observe_id. exact Hid.
  - apply to_int_is_int.
Qed.

(** The iteration never stores outside of [buff]: the text of one event and
    its NUL take 42 bytes at most. *)
Lemma zone_iteration_spec env zone ls :
  C.is_int (ZoneInfo.id zone) -> sizeof (buff ls) = 64 ->
  exists buff',
    sizeof buff' = 64
    /\ zone_iteration env zone ls
       = Some (poll_zone env zone,
               if demand_eqb (ZoneInfo.demand zone)
                             (ZoneInfo.demand (poll_zone env zone))
               then ls
               else
                 let event := iteration_event env zone (clock_reads ls) in
                 {| new_event := true;
                    clock_reads := S (clock_reads ls);
                    events := log_push event (events ls);
                    pubs := pubs ls ++ [publication event];
                    buff := buff' |}).
Proof.
  intros Hid Hsz. unfold zone_iteration. fold (poll_zone env zone).
  destruct (demand_eqb _ _); cbn [negb].
  { exists (buff ls). split; [exact Hsz|reflexivity]. }
  fold (iteration_event env zone (clock_reads ls)).
  set (event := iteration_event env zone (clock_reads ls)).
  cbn [log_push head mbind option_bind].
  pose proof (iteration_event_ints env zone (clock_reads ls) Hid) as Hints.
  fold event in Hints.
  destruct (write_event_json_spec event [] (buff ls) (sizeof (buff ls)) false Hints)
    as (junk' & r & E & Hl & Hfit & _);
    [pose proof (sizeof_nonneg (buff ls)); lia|unfold C.INT_MAX; lia|].
  cbn [app] in E. change (sizeof []) with 0 in E. rewrite E.
  cbn [mbind option_bind].
  pose proof (event_json_bounds event Hints) as Hb.
  destruct Hfit as [_ [rest ->]].
  { unfold element. cbn [app]. unfold sizeof at 1. lia. }
  unfold element. cbn [app].
  rewrite c_str_app by apply event_json_no_NUL.
  eexists. split; [|reflexivity].
  unfold sizeof in *. unfold element in Hl. cbn [app] in Hl. lia.
Qed.

(** ** Scenario A and the latency of the debouncer *)

(** C3. Scenario A as the code runs it.  From a counter of 250 and a demand
    that is unknown, the counter is 250 + 5 n after n readings that say the
    zone is on, for n up to 30, and reaches [HYST_THRESH_ON] = 400 at the
    30th.  The comment of [HYST_THRESH_ON] has the demand turn on when the
    counter reaches the threshold; the test of [read_all_zones] is
    [count > HYST_THRESH_ON], so the demand is still unknown at the 30th
    reading.  The 31st reading brings the counter to 405 and turns the demand
    on, and the iteration of that reading logs the event, whose field "on"
    is 1. *)
Theorem activation_scenario (zone : ZoneInfo.t) :
  ZoneInfo.count zone = 250 ->
  ZoneInfo.demand zone = Demand.Unknown ->
  let run n := observe_all (replicate n LOW) zone in
  (forall n, (n <= 30)%nat ->
     ZoneInfo.count (run n) = 250 + 5 * Z.of_nat n
     /\ ZoneInfo.demand (run n) = Demand.Unknown)
  /\ ZoneInfo.count (run 30%nat) = HYST_THRESH_ON
  /\ ZoneInfo.count (run 31%nat) = 405
  /\ ZoneInfo.demand (run 31%nat) = Demand.True
  /\ forall env ls,
       digitalRead env (ZoneInfo.pin zone) = LOW ->
       C.is_int (ZoneInfo.id zone) -> sizeof (buff ls) = 64 ->
       exists ls' t,
         let event := ZoneEvent.mk (run 31%nat) t Demand.True in
         zone_iteration env (run 30%nat) ls = Some (run 31%nat, ls')
         /\ events ls' = log_push event (events ls)
         /\ event_args event = [ZoneInfo.id zone; t; 1]
         /\ new_event ls' = true.
Proof.
  intros Hcount Hdemand run.
  assert (Hc : count_in_range zone).
  { unfold count_in_range, HYST_MIN, HYST_MAX. lia. }
  assert (Hrun : forall n, (n <= 31)%nat ->
            ZoneInfo.count (run n) = 250 + 5 * Z.of_nat n
            /\ ZoneInfo.demand (run n)
               = if (30 <? n)%nat then Demand.True else Demand.Unknown).
  { intros n Hn. subst run. cbv beta.
    rewrite low_run_count by exact Hc.
    rewrite low_run_demand by (unfold HYST_THRESH_ON; assumption || lia).
    rewrite Hcount, Hdemand. unfold HYST_MAX, HYST_THRESH_ON.
    split; [lia|]. rewrite Z.gtb_ltb.
    destruct (Z.ltb_spec 400 (250 + 5 * Z.of_nat n)), (Nat.ltb_spec 30 n);
      (reflexivity || lia). }
  assert (Hstep : run 31%nat = observe LOW (run 30%nat)).
  { subst run. cbv beta.
    change 31%nat with (30 + 1)%nat. rewrite replicate_add.
    unfold observe_all. rewrite fold_left_app. reflexivity. }
  split.
  { intros n Hn. destruct (Hrun n ltac:(lia)) as [H1 H2]. split; [exact H1|].
    rewrite H2. destruct (Nat.ltb_spec 30 n); [lia|reflexivity]. }
  destruct (Hrun 30%nat ltac:(lia)) as [Hc30 Hd30].
  destruct (Hrun 31%nat ltac:(lia)) as [Hc31 Hd31].
  change (30 <? 30)%nat with false in Hd30. change (30 <? 31)%nat with true in Hd31.
  split; [rewrite Hc30; reflexivity|].
  split; [rewrite Hc31; reflexivity|].
  split; [exact Hd31|].
  intros env ls Hlow Hid Hsz.
  assert (Hpin : ZoneInfo.pin (run 30%nat) = ZoneInfo.pin zone).
  { subst run. cbv beta. clear. generalize 30%nat. intros n. revert zone.
    induction n as [|n IH]; intros zone; [reflexivity|].
    cbn [replicate]. rewrite observe_all_cons, IH. apply observe_pin. }
  assert (Hid' : ZoneInfo.id (run 31%nat) = ZoneInfo.id zone).
  { subst run. cbv beta. clear. generalize 31%nat. intros n. revert zone.
    induction n as [|n IH]; intros zone; [reflexivity|].
    cbn [replicate]. rewrite observe_all_cons, IH. apply observe_id. }
  assert (Hpoll : poll_zone env (run 30%nat) = run 31%nat).
  { unfold poll_zone. rewrite Hpin, Hlow, Hstep. reflexivity. }
  destruct (zone_iteration_spec env (run 30%nat) ls) as (buff' & _ & E);
    [|exact Hsz|].
  { rewrite Hstep, observe_id in Hid'. rewrite Hid'. exact Hid. }
  rewrite Hpoll, Hd30, Hd31 in E. cbn [demand_eqb] in E.
  eexists. exists (C.to_int (Time_now env (clock_reads ls))).
  cbv zeta. split; [exact E|].
  cbn [events new_event]. unfold iteration_event. rewrite Hpoll, Hd31.
  split; [reflexivity|]. split; [|reflexivity].
  unfold event_args.
  cbn [ZoneEvent.info ZoneEvent.time ZoneEvent.demand demand_eqb C.of_bool].
  rewrite Hid'. reflexivity.
Qed.

Lemma activation_scenario_witness :
  let zone := ZoneInfo.mk 0 D4 250 Demand.Unknown in
  let run n := observe_all (replicate n LOW) zone in
  (forall n, (n <= 30)%nat ->
     ZoneInfo.count (run n) = 250 + 5 * Z.of_nat n
     /\ ZoneInfo.demand (run n) = Demand.Unknown)
  /\ ZoneInfo.count (run 30%nat) = HYST_THRESH_ON
  /\ ZoneInfo.count (run 31%nat) = 405
  /\ ZoneInfo.demand (run 31%nat) = Demand.True
  /\ forall env ls,
       digitalRead env (ZoneInfo.pin zone) = LOW ->
       C.is_int (ZoneInfo.id zone) -> sizeof (buff ls) = 64 ->
       exists ls' t,
         let event := ZoneEvent.mk (run 31%nat) t Demand.True in
         zone_iteration env (run 30%nat) ls = Some (run 31%nat, ls')
         /\ events ls' = log_push event (events ls)
         /\ event_args event = [ZoneInfo.id zone; t; 1]
         /\ new_event ls' = true.
Proof.
  apply (activation_scenario (ZoneInfo.mk 0 D4 250 Demand.Unknown)); reflexivity.
Defined.

(** C3 at the input of scenario A: at the 30th reading the counter of a zone
    as it is initialised is 400, the threshold is reached and the demand is
    still unknown, not on; 30 polls of the program with every zone on log no
    event. *)
Lemma activation_scenario_counterexample :
  let zone := ZoneInfo.mk 0 D4 250 Demand.Unknown in
  ZoneInfo.count (observe_all (replicate 30 LOW) zone) = 400
  /\ ZoneInfo.demand (observe_all (replicate 30 LOW) zone) = Demand.Unknown
  /\ ZoneInfo.demand (observe_all (replicate 30 LOW) zone) <> Demand.True
  /\ (st ← run_polls (replicate 30 (env_const LOW 1000)) initial_state;
      Some (zone_events st, map ZoneInfo.count (zone_list st)))
     = Some ([], [400; 400; 400]).
Proof.
  cbv zeta. split; [vm_compute; reflexivity|].
  split; [vm_compute; reflexivity|].
  split; [vm_compute; discriminate|]. vm_compute. reflexivity.
Qed.

(** What 31 polls with every zone on leave in the log and in the buffer: the
    demand of each zone is turned on at the 31st poll. *)
Example scenario_A_polls :
  (st ← run_polls (replicate 31 (env_const LOW 1000)) initial_state;
   s ← c_str (zone_events_json st);
   Some (map ZoneEvent.demand (zone_events st), s,
         map pub_data (published st)))
  = Some ([Demand.True; Demand.True; Demand.True],
          events_json [ ZoneEvent.mk (ZoneInfo.mk 2 D6 405 Demand.True) 1000 Demand.True;
                        ZoneEvent.mk (ZoneInfo.mk 1 D5 405 Demand.True) 1000 Demand.True;
                        ZoneEvent.mk (ZoneInfo.mk 0 D4 405 Demand.True) 1000 Demand.True ],
          [ Some (event_json (ZoneEvent.mk (ZoneInfo.mk 0 D4 405 Demand.True) 1000 Demand.True));
            Some (event_json (ZoneEvent.mk (ZoneInfo.mk 1 D5 405 Demand.True) 1000 Demand.True));
            Some (event_json (ZoneEvent.mk (ZoneInfo.mk 2 D6 405 Demand.True) 1000 Demand.True)) ]).
Proof. vm_compute. reflexivity. Qed.

(** C4. The latency of the debouncer as the code runs it.  From a counter at
    [HYST_MIN] and a demand that is not on, readings that say the zone is on
    turn the demand on at the 81st of them and not before: after n readings
    the demand is on exactly when n >= 81, one more than
    (HYST_THRESH_ON - HYST_MIN) / 5 = 80.  The 80th reading brings the counter
    to [HYST_THRESH_ON]; the comment of the constant has the demand turn on
    when the counter reaches it, and the test of [read_all_zones] is
    [count > HYST_THRESH_ON]. *)
Theorem debounce_latency (zone : ZoneInfo.t) (n : nat) :
  ZoneInfo.count zone = HYST_MIN ->
  ZoneInfo.demand zone <> Demand.True ->
  (ZoneInfo.demand (observe_all (replicate n LOW) zone) = Demand.True
   <-> (81 <= n)%nat)
  /\ (HYST_THRESH_ON - HYST_MIN) / 5 + 1 = 81.
Proof.
  intros Hcount Hdemand. split; [|reflexivity].
  rewrite low_run_demand;
    [|unfold count_in_range; rewrite Hcount; unfold HYST_MIN, HYST_MAX; lia
     |rewrite Hcount; unfold HYST_MIN, HYST_THRESH_ON; lia].
  rewrite Hcount. unfold HYST_MIN, HYST_THRESH_ON. rewrite Z.gtb_ltb.
  destruct (Z.ltb_spec 400 (0 + 5 * Z.of_nat n)); split; intros H';
    (reflexivity || lia || contradiction).
Qed.

Lemma debounce_latency_witness :
  (ZoneInfo.demand (observe_all (replicate 81 LOW) (ZoneInfo.mk 0 D4 0 Demand.False))
     = Demand.True
   <-> (81 <= 81)%nat)
  /\ (HYST_THRESH_ON - HYST_MIN) / 5 + 1 = 81.
Proof.
  apply (debounce_latency (ZoneInfo.mk 0 D4 0 Demand.False) 81);
    [reflexivity|discriminate].
Defined.

(** C4 at 80 readings: they bring the counter from 0 to 400, the threshold
    is reached, and the demand is not on yet, nor was it on at any reading
    before. *)
Lemma debounce_latency_counterexample :
  let zone := ZoneInfo.mk 0 D4 HYST_MIN Demand.False in
  ZoneInfo.count (observe_all (replicate 80 LOW) zone) = 400
  /\ ZoneInfo.demand (observe_all (replicate 80 LOW) zone) = Demand.False
  /\ ~ (exists n, (n <= 80)%nat
          /\ ZoneInfo.demand (observe_all (replicate n LOW) zone) = Demand.True).
Proof.
  cbv zeta. split; [vm_compute; reflexivity|].
  split; [vm_compute; reflexivity|].
  intros (n & Hn & Hd).
  rewrite low_run_demand in Hd;
    [|unfold count_in_range, HYST_MIN, HYST_MAX; cbn; lia
     |unfold HYST_MIN, HYST_THRESH_ON; cbn; lia].
  cbn [ZoneInfo.count ZoneInfo.demand] in Hd.
  unfold HYST_MIN, HYST_THRESH_ON in Hd. rewrite Z.gtb_ltb in Hd.
  destruct (Z.ltb_spec 400 (0 + 5 * Z.of_nat n)); [lia|discriminate].
Qed.

(** ** The event log *)

Lemma removelast_take {A} (n : nat) : forall l : list A,
  (n < length l)%nat -> removelast (take (S n) l) = take n l.
Proof.
  induction n as [|n IH]; intros l Hl.
  - destruct l as [|x l]; [simpl in Hl; lia|]. cbn. rewrite take_0. reflexivity.
  - destruct l as [|x l]; [simpl in Hl; lia|].
    change (take (S (S n)) (x :: l)) with (x :: take (S n) l).
    change (take (S n) (x :: l)) with (x :: take n l).
    rewrite <- (IH l) by (simpl in Hl; lia).
    destruct l as [|y l]; [simpl in Hl; lia|]. reflexivity.
Qed.

(** A push into a log that holds the 20 most recent events of a history. *)
Lemma log_push_take event (history : list ZoneEvent.t) :
  log_push event (take 20 history) = take 20 (event :: history).
Proof.
  unfold log_push, MAX_NUM_EVENTS. rewrite length_take.
  change (take 20 (event :: history)) with (event :: take 19 history).
  f_equal. destruct (Z.eqb_spec (Z.of_nat (20 `min` length history)) 20) as [E|E].
  - apply removelast_take. lia.
  - rewrite !take_ge by lia. reflexivity.
Qed.

Lemma push_all_take pushed : forall history : list ZoneEvent.t,
  push_all pushed (take 20 history) = take 20 (rev pushed ++ history).
Proof.
  induction pushed as [|event pushed IH]; intros history; [reflexivity|].
  unfold push_all in *. cbn [fold_left rev].
  rewrite log_push_take, IH, <- app_assoc. reflexivity.
Qed.

Lemma push_all_bounded pushed (log : list ZoneEvent.t) :
  Z.of_nat (length log) <= MAX_NUM_EVENTS ->
  push_all pushed log = take 20 (rev pushed ++ log).
Proof.
  unfold MAX_NUM_EVENTS. intros Hlen.
  rewrite <- (take_ge log 20) at 1 by lia. apply push_all_take.
Qed.

(** C5. After any pushes into an empty log the log holds 20 events at most:
    the most recent min(n, 20) of the n events pushed, the newest first.
    With the 25 events of ids 0 to 24 pushed in this order the log holds the
    ids 24 down to 5; its front is the event of id 24 and its back the event
    of id 5. *)
Theorem log_capacity :
  (forall pushed : list ZoneEvent.t,
     let log := push_all pushed [] in
     Z.of_nat (length log) <= MAX_NUM_EVENTS
     /\ length log = Nat.min (length pushed) 20
     /\ log = take 20 (rev pushed))
  /\ (let log := push_all scenario_B_events [] in
      map (fun event => ZoneInfo.id (ZoneEvent.info event)) log
        = [24; 23; 22; 21; 20; 19; 18; 17; 16; 15; 14; 13; 12; 11; 10; 9; 8; 7; 6; 5]
      /\ option_map (fun event => ZoneInfo.id (ZoneEvent.info event)) (head log)
         = Some 24
      /\ option_map (fun event => ZoneInfo.id (ZoneEvent.info event)) (last log)
         = Some 5).
Proof.
  split.
  - intros pushed log. subst log.
    rewrite (push_all_bounded pushed []) by (unfold MAX_NUM_EVENTS; simpl; lia).
    rewrite app_nil_r, length_take, length_rev. unfold MAX_NUM_EVENTS.
    repeat split; lia.
  - vm_compute. repeat split.
Qed.

(** ** One poll *)

Lemma observe_change level zone :
  ZoneInfo.demand (observe level zone) = ZoneInfo.demand zone
  \/ demand_transition (ZoneInfo.demand zone) (ZoneInfo.demand (observe level zone)).
Proof.
  rewrite observe_demand. unfold threshold_compare.
  destruct level, (ZoneInfo.demand zone);
    match goal with |- context [if ?b then _ else _] => destruct b end;
    (left; reflexivity) || (right; constructor).
Qed.

Lemma observe_change_resolved level zone :
  ZoneInfo.demand (observe level zone) <> ZoneInfo.demand zone ->
  resolved (ZoneInfo.demand (observe level zone)).
Proof.
  intros Hne. destruct (observe_change level zone) as [E|T]; [contradiction|].
  unfold resolved. inversion T; tauto.
Qed.

Lemma poll_events_ints env zones : forall k,
  Forall (fun zone => C.is_int (ZoneInfo.id zone)) zones ->
  Forall event_ints (poll_events env k zones).
Proof.
  induction zones as [|zone rest IH]; intros k Hids; [constructor|].
  apply Forall_cons in Hids. destruct Hids as [Hid Hids].
  cbn [poll_events]. destruct (demand_eqb _ _); [apply IH, Hids|].
  constructor; [|apply IH, Hids].
  apply (iteration_event_ints env zone k Hid).
Qed.

Lemma poll_events_resolved env zones : forall k,
  Forall (fun event => resolved (ZoneEvent.demand event)) (poll_events env k zones).
Proof.
  induction zones as [|zone rest IH]; intros k; [constructor|].
  cbn [poll_events]. destruct (demand_eqb _ _) eqn:E; [apply IH|].
  constructor; [|apply IH]. cbn [ZoneEvent.demand].
  apply demand_eqb_neq in E. unfold poll_zone in *.
  apply observe_change_resolved. intros H. apply E. symmetry. exact H.
Qed.

(** The loop over the zones: every zone is polled, and the events of the
    poll are pushed and published one after the other. *)
Lemma zones_loop_spec env zones : forall ls,
  Forall (fun zone => C.is_int (ZoneInfo.id zone)) zones ->
  sizeof (buff ls) = 64 ->
  let evs := poll_events env (clock_reads ls) zones in
  exists buff',
    sizeof buff' = 64
    /\ zones_loop env zones ls
       = Some (map (poll_zone env) zones,
               {| new_event := match evs with [] => new_event ls | _ => true end;
                  clock_reads := clock_reads ls + length evs;
                  events := push_all evs (events ls);
                  pubs := pubs ls ++ map publication evs;
                  buff := buff' |}).
Proof.
  induction zones as [|zone rest IH]; intros ls Hids Hsz.
  - exists (buff ls). split; [exact Hsz|]. destruct ls. cbn.
    rewrite Nat.add_0_r, app_nil_r. reflexivity.
  - apply Forall_cons in Hids. destruct Hids as [Hid Hids].
    destruct (zone_iteration_spec env zone ls Hid Hsz) as (b1 & Hb1 & E1).
    cbn [zones_loop poll_events]. rewrite E1. cbn [mbind option_bind].
    destruct (demand_eqb _ _).
    + destruct (IH ls Hids Hsz) as (b2 & Hb2 & E2). rewrite E2.
      exists b2. split; [exact Hb2|reflexivity].
    + cbv zeta.
      match goal with
      | |- context [zones_loop env rest ?l] => set (ls1 := l)
      end.
      destruct (IH ls1 Hids Hb1) as (b2 & Hb2 & E2). rewrite E2.
      exists b2. split; [exact Hb2|]. subst ls1.
      cbn [mbind option_bind new_event clock_reads events pubs buff map length].
      fold (iteration_event env zone (clock_reads ls)).
      f_equal. f_equal. f_equal.
      * destruct (poll_events _ _ _); reflexivity.
      * lia.
      * rewrite <- app_assoc. reflexivity.
Qed.

(** A poll from a state that satisfies the invariant makes no store outside
    of a buffer, and leaves the globals as follows. *)
Lemma read_all_zones_spec env st :
  state_inv st ->
  let evs := poll_events env 0 (zone_list st) in
  let time := C.to_int (Time_now env (length evs)) in
  exists st',
    read_all_zones env st = Some st'
    /\ zone_list st' = map (poll_zone env) (zone_list st)
    /\ zone_events st' = push_all evs (zone_events st)
    /\ published st' = published st ++ map publication evs
    /\ polls st' = next_polls (polls st)
    /\ last_poll st' = time
    /\ (evs = [] ->
        zone_events_json st' = zone_events_json st
        /\ last_event st' = last_event st)
    /\ (evs <> [] ->
        last_event st' = time
        /\ exists k rest,
             zone_events_json st'
             = events_json (take k (zone_events st')) ++ NUL :: rest
             /\ sizeof (zone_events_json st') = 620).
Proof.
  intros Hinv evs time. unfold read_all_zones.
  match goal with
  | |- context [zones_loop env (zone_list st) ?l] => set (ls0 := l)
  end.
  destruct (zones_loop_spec env (zone_list st) ls0) as (b & Hb & E).
  { apply (inv_ids st Hinv). }
  { subst ls0. cbn [buff]. unfold sizeof. rewrite length_map, length_seq.
    reflexivity. }
  subst ls0. cbn [clock_reads events pubs new_event buff Nat.add] in E.
  fold evs in E. rewrite E. clear E.
  cbn [mbind option_bind clock_reads events pubs new_event buff].
  fold time. fold (next_polls (polls st)).
  destruct evs as [|event evs'] eqn:Eevs.
  - eexists. split; [reflexivity|].
    cbn [zone_list zone_events zone_events_json polls last_poll last_event published].
    do 5 (split; [reflexivity|]).
    split; [intros _; split; reflexivity|].
    intros Hne. exfalso. apply Hne. reflexivity.
  - destruct (update_event_json_spec (zone_events_json st)
                (push_all (event :: evs') (zone_events st)))
      as (k & rest & Hk & Eu & Hsz & _).
    { rewrite (inv_json_size st Hinv). unfold C.INT_MAX. lia. }
    { rewrite push_all_bounded by apply (inv_log_length st Hinv).
      apply Forall_take, Forall_app. split; [|apply (inv_log_ints st Hinv)].
      apply Forall_rev. rewrite <- Eevs. apply poll_events_ints.
      apply (inv_ids st Hinv). }
    rewrite Eu. cbn [mbind option_bind].
    eexists. split; [reflexivity|].
    cbn [zone_list zone_events zone_events_json polls last_poll last_event published].
    do 5 (split; [reflexivity|]).
    split; [intros Hnil; discriminate Hnil|].
    intros _. split; [reflexivity|].
    exists k, rest. split; [reflexivity|].
    rewrite Hsz. apply (inv_json_size st Hinv).
Qed.

(** ** The invariant of the globals *)

Lemma state_inv_initial : state_inv initial_state.
Proof.
  constructor; cbn [initial_state zone_list zone_events zone_events_json].
  - repeat constructor; cbn; unfold C.INT_MIN, C.INT_MAX; lia.
  - repeat constructor; vm_compute; discriminate.
  - unfold MAX_NUM_EVENTS. simpl. lia.
  - constructor.
  - constructor.
  - reflexivity.
  - exists (events_json []). split; [reflexivity|apply events_json_array].
Qed.

Lemma state_inv_poll env st st' :
  state_inv st -> read_all_zones env st = Some st' -> state_inv st'.
Proof.
  intros Hinv Hpoll.
  destruct (read_all_zones_spec env st Hinv)
    as (st'' & E & Hzones & Hlog & _ & _ & _ & Hquiet & Hevent).
  rewrite E in Hpoll. injection Hpoll as ->.
  set (evs := poll_events env 0 (zone_list st)) in *.
  assert (Hlog' : zone_events st' = take 20 (rev evs ++ zone_events st)).
  { rewrite Hlog. apply push_all_bounded, (inv_log_length st Hinv). }
  constructor.
  - rewrite Hzones. apply Forall_map.
    eapply Forall_impl; [apply (inv_ids st Hinv)|].
    intros zone Hid. cbn. unfold poll_zone. rewrite observe_id. exact Hid.
  - rewrite Hzones. apply Forall_map.
    eapply Forall_impl; [apply (inv_counts st Hinv)|].
    intros zone Hc. apply observe_in_range, Hc.
  - rewrite Hlog', length_take. unfold MAX_NUM_EVENTS. lia.
  - rewrite Hlog'. apply Forall_take, Forall_app.
    split; [|apply (inv_log_ints st Hinv)].
    apply Forall_rev, poll_events_ints, (inv_ids st Hinv).
  - rewrite Hlog'. apply Forall_take, Forall_app.
    split; [|apply (inv_log_resolved st Hinv)].
    apply Forall_rev, poll_events_resolved.
  - destruct evs as [|event evs'] eqn:Eevs.
    + destruct (Hquiet eq_refl) as [-> _]. apply (inv_json_size st Hinv).
    + destruct (Hevent ltac:(discriminate)) as (_ & k & rest & _ & Hsz).
      exact Hsz.
  - destruct evs as [|event evs'] eqn:Eevs.
    + destruct (Hquiet eq_refl) as [-> _]. apply (inv_json_text st Hinv).
    + destruct (Hevent ltac:(discriminate)) as (_ & k & rest & -> & _).
      exists (events_json (take k (zone_events st'))).
      split; [apply c_str_app, events_json_no_NUL|apply events_json_array].
Qed.

Lemma reachable_inv st : reachable st -> state_inv st.
Proof.
  induction 1 as [|env st st' _ IH Hpoll];
    [apply state_inv_initial|apply (state_inv_poll env st st' IH Hpoll)].
Qed.

(** A poll of a reachable state always returns: no store is made outside of
    a buffer. *)
Lemma read_all_zones_total env st :
  reachable st -> exists st', read_all_zones env st = Some st'.
Proof.
  intros Hr. destruct (read_all_zones_spec env st (reachable_inv st Hr))
    as (st' & E & _).
  exists st'. exact E.
Qed.

Lemma run_polls_reachable envs : forall st st',
  reachable st -> run_polls envs st = Some st' -> reachable st'.
Proof.
  induction envs as [|env envs IH]; intros st st' Hr Hrun; cbn in Hrun.
  - injection Hrun as <-. exact Hr.
  - destruct (read_all_zones env st) as [st1|] eqn:E; [|discriminate].
    cbn in Hrun. apply (IH st1 st'); [|exact Hrun].
    apply (reachable_poll env st st1 Hr E).
Qed.

(** ** Transitions, events and publications of a poll *)

Lemma zone_iteration_events env zone ls zone' ls' :
  zone_iteration env zone ls = Some (zone', ls') ->
  zone' = poll_zone env zone
  /\ (ZoneInfo.demand zone' <> ZoneInfo.demand zone ->
      events ls'
      = log_push (ZoneEvent.mk zone' (C.to_int (Time_now env (clock_reads ls)))
                               (ZoneInfo.demand zone'))
                 (events ls))
  /\ (ZoneInfo.demand zone' = ZoneInfo.demand zone -> events ls' = events ls).
Proof.
  unfold zone_iteration. fold (poll_zone env zone).
  destruct (demand_eqb _ _) eqn:E; cbn [negb].
  - intros [= <- <-]. apply demand_eqb_eq in E.
    split; [reflexivity|]. split; [|reflexivity].
    intros Hne. exfalso. apply Hne. symmetry. exact E.
  - apply demand_eqb_neq in E. cbn [log_push head mbind option_bind].
    destruct (write_event_json _ _ _ _ _) as [[b n]|]; [|discriminate].
    cbn [mbind option_bind]. intros [= <- <-].
    split; [reflexivity|]. split; [reflexivity|].
    intros Heq. exfalso. apply E. symmetry. exact Heq.
Qed.

Lemma poll_transitions env zones :
  Forall2 (fun zone zone' =>
             ZoneInfo.demand zone' = ZoneInfo.demand zone
             \/ demand_transition (ZoneInfo.demand zone) (ZoneInfo.demand zone'))
          zones (map (poll_zone env) zones).
Proof.
  induction zones as [|zone rest IH]; cbn [map]; constructor; [|exact IH].
  apply observe_change.
Qed.

(** C8. In a poll of a reachable state the demand of every zone is left as
    it is or changes along Unknown -> True, Unknown -> False, True -> False or
    False -> True, never back to Unknown; an iteration of the loop pushes an
    event exactly when the demand after it differs from the demand before;
    the log after the poll is the log before with the events of the zones
    whose demand changed pushed in turn; and every event in the log is an
    event of a demand True or False. *)
Theorem demand_transitions (env : PollEnv) (st st' : State) :
  reachable st ->
  read_all_zones env st = Some st' ->
  Forall2 (fun zone zone' =>
             ZoneInfo.demand zone' = ZoneInfo.demand zone
             \/ demand_transition (ZoneInfo.demand zone) (ZoneInfo.demand zone'))
          (zone_list st) (zone_list st')
  /\ (forall zone ls zone' ls',
        zone_iteration env zone ls = Some (zone', ls') ->
        (ZoneInfo.demand zone' <> ZoneInfo.demand zone ->
         exists t, events ls'
                   = log_push (ZoneEvent.mk zone' t (ZoneInfo.demand zone'))
                              (events ls))
        /\ (ZoneInfo.demand zone' = ZoneInfo.demand zone ->
            events ls' = events ls))
  /\ zone_events st' = push_all (poll_events env 0 (zone_list st)) (zone_events st)
  /\ Forall (fun event => resolved (ZoneEvent.demand event)) (zone_events st)
  /\ Forall (fun event => resolved (ZoneEvent.demand event)) (zone_events st').
Proof.
  intros Hr Hpoll. pose proof (reachable_inv st Hr) as Hinv.
  destruct (read_all_zones_spec env st Hinv) as (st'' & E & Hzones & Hlog & _).
  rewrite E in Hpoll. injection Hpoll as ->.
  split; [rewrite Hzones; apply poll_transitions|].
  split.
  { intros zone ls zone' ls' Hit.
    destruct (zone_iteration_events env zone ls zone' ls' Hit) as (_ & Hpush & Hkeep).
    split; [|exact Hkeep]. intros Hne. eexists. apply Hpush, Hne. }
  split; [exact Hlog|].
  split; [apply (inv_log_resolved st Hinv)|].
  apply (inv_log_resolved st' (state_inv_poll env st st' Hinv E)).
Qed.

Lemma state_30_reachable : reachable state_30.
Proof.
  apply (run_polls_reachable (replicate 30 (env_const LOW 1000)) initial_state);
    [apply reachable_initial|].
  vm_compute. reflexivity.
Qed.

Lemma demand_transitions_witness :
  let env := env_const LOW 1000 in
  Forall2 (fun zone zone' =>
             ZoneInfo.demand zone' = ZoneInfo.demand zone
             \/ demand_transition (ZoneInfo.demand zone) (ZoneInfo.demand zone'))
          (zone_list state_30) (zone_list state_31)
  /\ (forall zone ls zone' ls',
        zone_iteration env zone ls = Some (zone', ls') ->
        (ZoneInfo.demand zone' <> ZoneInfo.demand zone ->
         exists t, events ls'
                   = log_push (ZoneEvent.mk zone' t (ZoneInfo.demand zone'))
                              (events ls))
        /\ (ZoneInfo.demand zone' = ZoneInfo.demand zone ->
            events ls' = events ls))
  /\ zone_events state_31
     = push_all (poll_events env 0 (zone_list state_30)) (zone_events state_30)
  /\ Forall (fun event => resolved (ZoneEvent.demand event)) (zone_events state_30)
  /\ Forall (fun event => resolved (ZoneEvent.demand event)) (zone_events state_31).
Proof.
  apply (demand_transitions (env_const LOW 1000) state_30 state_31).
  - apply state_30_reachable.
  - vm_compute. reflexivity.
Defined.






(** ** A poll without a change of demand *)

Lemma zones_loop_quiet env zones : forall ls,
  Forall (quiet env) zones ->
  zones_loop env zones ls = Some (map (poll_zone env) zones, ls).
Proof.
  induction zones as [|zone rest IH]; intros ls Hq; [reflexivity|].
  apply Forall_cons in Hq. destruct Hq as [Hz Hq].
  cbn [zones_loop map]. unfold zone_iteration. fold (poll_zone env zone).
  unfold quiet in Hz. rewrite Hz.
  replace (demand_eqb (ZoneInfo.demand zone) (ZoneInfo.demand zone)) with true
    by (symmetry; apply demand_eqb_eq; reflexivity).
  cbn [negb mbind option_bind]. rewrite (IH ls Hq). reflexivity.
Qed.

(** C10. A call of [read_all_zones] in which no zone changes its demand
    returns, and leaves the log, the buffer of the JSON text, [last_event]
    and the publications as they were; [last_poll] is the time read, and
    [polls] is one more than before, or 0 when one more is not a
    non-negative [int]. *)
Theorem quiet_poll (env : PollEnv) (st : State) :
  Forall (quiet env) (zone_list st) ->
  C.is_int (polls st) ->
  exists st',
    read_all_zones env st = Some st'
    /\ zone_events st' = zone_events st
    /\ zone_events_json st' = zone_events_json st
    /\ last_event st' = last_event st
    /\ published st' = published st
    /\ last_poll st' = C.to_int (Time_now env 0)
    /\ polls st' = if (0 <=? polls st + 1) && (polls st + 1 <=? C.INT_MAX)
                   then polls st + 1 else 0.
Proof.
  intros Hq Hpolls. unfold read_all_zones.
  rewrite (zones_loop_quiet env (zone_list st) _ Hq).
  cbn [mbind option_bind new_event clock_reads events pubs].
  eexists. split; [reflexivity|].
  cbn [zone_events zone_events_json last_event published last_poll polls].
  do 5 (split; [reflexivity|]).
  unfold C.is_int, C.INT_MIN, C.INT_MAX in *.
  destruct (Z.leb_spec 0 (polls st + 1)), (Z.leb_spec (polls st + 1) 2147483647);
    cbn [andb].
  - rewrite to_int_id by (unfold C.is_int, C.INT_MIN, C.INT_MAX; lia).
    destruct (Z.ltb_spec (polls st + 1) 0); [lia|reflexivity].
  - replace (polls st + 1) with 2147483648 by lia. reflexivity.
  - rewrite to_int_id by (unfold C.is_int, C.INT_MIN, C.INT_MAX; lia).
    destruct (Z.ltb_spec (polls st + 1) 0); [reflexivity|lia].
  - lia.
Qed.

Lemma quiet_poll_witness :
  let env := env_const LOW 1000 in
  exists st',
    read_all_zones env initial_state = Some st'
    /\ zone_events st' = zone_events initial_state
    /\ zone_events_json st' = zone_events_json initial_state
    /\ last_event st' = last_event initial_state
    /\ published st' = published initial_state
    /\ last_poll st' = C.to_int (Time_now env 0)
    /\ polls st' = if (0 <=? polls initial_state + 1)
                      && (polls initial_state + 1 <=? C.INT_MAX)
                   then polls initial_state + 1 else 0.
Proof.
  apply (quiet_poll (env_const LOW 1000) initial_state).
  - repeat constructor.
  - unfold C.is_int, C.INT_MIN, C.INT_MAX. simpl. lia.
Defined.

(** * Further properties of the encoder *)

(** [snprintf] on a window of the buffer: the bytes before and after the
    window are left alone, and the window gets the expansion cut to [n - 1]
    characters and a NUL. *)
Lemma snprintf_window pre window post n fmt args :
  0 <= n <= sizeof window ->
  exists window',
    snprintf (pre ++ window ++ post) (sizeof pre) n fmt args
      = Some (pre ++ window' ++ post, sizeof (format fmt args))
    /\ length window' = length window
    /\ (0 < n ->
        window' = (take (Z.to_nat (n - 1)) (format fmt args) ++ [NUL])
                  ++ drop (length (take (Z.to_nat (n - 1)) (format fmt args) ++ [NUL]))
                          window)
    /\ (n = 0 -> window' = window).
Proof.
  intros Hn. unfold snprintf. set (s := format fmt args).
  destruct (Z.eqb_spec n 0) as [->|Hn0].
  - exists window. split; [reflexivity|]. split; [reflexivity|].
    split; [lia|reflexivity].
  - set (w := take (Z.to_nat (n - 1)) s ++ [NUL]).
    assert (Hw : (length w <= length window)%nat).
    { subst w. rewrite length_app, length_take. unfold sizeof in Hn.
      cbn [length]. lia. }
    replace (pre ++ window ++ post)
      with (pre ++ take (length w) window ++ (drop (length w) window ++ post))
      by (rewrite (app_assoc (take _ _)), take_drop; reflexivity).
    rewrite (store_bytes_app w pre (take (length w) window))
      by (rewrite length_take; lia).
    exists (w ++ drop (length w) window). cbn [mbind option_bind].
    split; [rewrite <- app_assoc; reflexivity|].
    split; [rewrite length_app, length_drop; lia|].
    split; [reflexivity|lia].
Qed.

Lemma drop_all_app {A} (l : list A) n : (length l <= n)%nat -> drop n l = [].
Proof. intros. apply drop_ge. lia. Qed.

(** X1. The contract of [write_event_json], for a window of [buffer_size]
    bytes anywhere in a buffer: no byte outside of the window is changed.
    When the text (with its comma, if asked for) and a NUL fit in the window,
    they are stored at its start and the result is the length of the text;
    otherwise the result is -1 and the window is filled with the start of the
    text, cut to leave room for a NUL (an empty window is left alone). *)
Theorem write_event_json_contract
    (event : ZoneEvent.t) (pre window post : list ascii) (comma : bool) :
  event_ints event ->
  sizeof window <= C.INT_MAX ->
  let text := element comma event in
  exists window' r,
    write_event_json event (pre ++ window ++ post) (sizeof pre) (sizeof window) comma
      = Some (pre ++ window' ++ post, r)
    /\ length window' = length window
    /\ (sizeof text < sizeof window ->
        r = sizeof text
        /\ window' = text ++ NUL :: drop (S (length text)) window)
    /\ (sizeof window <= sizeof text ->
        r = -1
        /\ window' = if sizeof window =? 0 then window
                     else take (Z.to_nat (sizeof window - 1)) text ++ [NUL]).
Proof.
  intros Hints Hmax text. unfold C.INT_MAX in Hmax.
  pose proof (event_json_bounds event Hints) as Hlen.
  pose proof (sizeof_nonneg window) as Hw0.
  assert (Hsz : sizeof text = C.of_bool comma + sizeof (event_json event)).
  { subst text. unfold element. rewrite sizeof_app. destruct comma; reflexivity. }
  assert (Hej : 21 <= sizeof (event_json event) <= 41) by (unfold sizeof; lia).
  unfold write_event_json.
  destruct (comma && (2 <=? sizeof window)) eqn:Hc.
  - apply andb_prop in Hc. destruct Hc as [-> Hc]. apply Z.leb_le in Hc.
    destruct window as [|w0 window1].
    { unfold sizeof in Hc. simpl in Hc. lia. }
    rewrite sizeof_cons in *. cbn [app].
    rewrite store_app. cbn [mbind option_bind].
    rewrite (to_size_t_id (1 + sizeof window1 - 1)) by (unfold C.SIZE_MAX; lia).
    replace (sizeof pre + 1) with (sizeof (pre ++ [","%char]))
      by (rewrite sizeof_app, sizeof_cons; reflexivity).
    replace (pre ++ ","%char :: window1 ++ post)
      with ((pre ++ [","%char]) ++ window1 ++ post)
      by (rewrite <- app_assoc; reflexivity).
    replace (1 + sizeof window1 - 1) with (sizeof window1) by lia.
    destruct (snprintf_window (pre ++ [","%char]) window1 post (sizeof window1)
                ZONE_JSON_STRING (event_args event))
      as (w1' & E & Hl & Hpos & _); [lia|].
    rewrite E. cbn [mbind option_bind]. fold (event_json event) in *.
    rewrite (to_size_t_id (sizeof (event_json event))) by (unfold C.SIZE_MAX; lia).
    specialize (Hpos ltac:(lia)).
    set (s := event_json event) in *.
    assert (Htext : text = ","%char :: s) by reflexivity.
    cbn [C.of_bool] in *.
    exists (","%char :: w1').
    destruct (Z.leb_spec (sizeof window1) (sizeof s)) as [Hle|Hgt].
    + exists (-1). rewrite <- !app_assoc. split; [reflexivity|].
      split; [cbn [length]; lia|]. split; [lia|]. intros _.
      split; [reflexivity|].
      destruct (Z.eqb_spec (1 + sizeof window1) 0); [lia|].
      rewrite Hpos, Htext.
      assert (Ht : forall m, (0 < m)%nat ->
                take m (","%char :: s) = ","%char :: take (m - 1) s).
      { intros [|m] Hm; [lia|]. replace (S m - 1)%nat with m by lia. reflexivity. }
      replace (Z.to_nat (1 + sizeof window1 - 1)) with (Z.to_nat (sizeof window1))
        by lia.
      rewrite Ht by lia.
      replace (Z.to_nat (sizeof window1) - 1)%nat
        with (Z.to_nat (sizeof window1 - 1)) by lia.
      rewrite drop_all_app, app_nil_r; [reflexivity|].
      rewrite length_app, length_take. unfold sizeof in *. cbn [length]. lia.
    + eexists. rewrite <- !app_assoc. split; [reflexivity|].
      split; [cbn [length]; lia|].
      rewrite to_size_t_id by (unfold C.SIZE_MAX; lia).
      rewrite to_int_id by (unfold C.is_int, C.INT_MIN, C.INT_MAX; lia).
      split; [|lia]. intros _. split; [lia|].
      rewrite Hpos, Htext. rewrite take_ge by (unfold sizeof in *; lia).
      rewrite length_app. cbn [length app drop].
      rewrite <- app_assoc. cbn [app]. f_equal. f_equal. f_equal. f_equal. lia.
  - cbn [mbind option_bind].
    destruct (snprintf_window pre window post (sizeof window)
                ZONE_JSON_STRING (event_args event))
      as (w' & E & Hl & Hpos & Hzero); [lia|].
    rewrite E. cbn [mbind option_bind]. fold (event_json event) in *.
    rewrite (to_size_t_id (sizeof (event_json event))) by (unfold C.SIZE_MAX; lia).
    set (s := event_json event) in *.
    exists w'.
    destruct (Z.leb_spec (sizeof window) (sizeof s)) as [Hle|Hgt].
    + exists (-1). split; [reflexivity|]. split; [exact Hl|].
      split; [destruct comma; cbn [C.of_bool] in Hsz; lia|]. intros _.
      split; [reflexivity|].
      destruct (Z.eqb_spec (sizeof window) 0) as [E0|E0]; [apply Hzero, E0|].
      rewrite (Hpos ltac:(lia)).
      rewrite drop_all_app, app_nil_r
        by (rewrite length_app, length_take; unfold sizeof in *; cbn [length]; lia).
      destruct comma; [|reflexivity].
      cbn [andb] in Hc. apply Z.leb_gt in Hc.
      replace (sizeof window - 1) with 0 by lia. reflexivity.
    + assert (comma = false) as ->.
      { destruct comma; [|reflexivity]. cbn [andb] in Hc.
        apply Z.leb_gt in Hc. lia. }
      assert (Htext : text = s) by reflexivity.
      cbn [C.of_bool] in *.
      eexists. split; [reflexivity|]. split; [exact Hl|].
      rewrite to_size_t_id by (unfold C.SIZE_MAX; lia).
      rewrite to_int_id by (unfold C.is_int, C.INT_MIN, C.INT_MAX; lia).
      split; [|lia]. intros _. split; [lia|].
      rewrite (Hpos ltac:(lia)), Htext.
      rewrite take_ge by (unfold sizeof in *; lia).
      rewrite length_app. cbn [length].
      rewrite <- app_assoc. cbn [app]. f_equal. f_equal. f_equal. lia.
Qed.

Lemma write_event_json_contract_witness :
  let event := sample_event in
  let pre := chars "[" in
  let window := replicate 30 "x"%char in
  let post := chars "yz" in
  let text := element false event in
  exists window' r,
    write_event_json event (pre ++ window ++ post) (sizeof pre) (sizeof window) false
      = Some (pre ++ window' ++ post, r)
    /\ length window' = length window
    /\ (sizeof text < sizeof window ->
        r = sizeof text
        /\ window' = text ++ NUL :: drop (S (length text)) window)
    /\ (sizeof window <= sizeof text ->
        r = -1
        /\ window' = if sizeof window =? 0 then window
                     else take (Z.to_nat (sizeof window - 1)) text ++ [NUL]).
Proof.
  apply (write_event_json_contract sample_event (chars "[")
           (replicate 30 "x"%char) (chars "yz") false).
  - split; unfold C.is_int, C.INT_MIN, C.INT_MAX; simpl; lia.
  - unfold sizeof, C.INT_MAX. simpl. lia.
Defined.

Lemma events_json_body_take_le events : forall first j,
  sizeof (events_json_body first (take j events))
  <= sizeof (events_json_body first (take (S j) events)).
Proof.
  induction events as [|event rest IH]; intros first j.
  - rewrite !take_nil. lia.
  - destruct j as [|j].
    + rewrite take_0. change (sizeof (events_json_body first [])) with 0.
      apply sizeof_nonneg.
    + change (take (S j) (event :: rest)) with (event :: take j rest).
      change (take (S (S j)) (event :: rest)) with (event :: take (S j) rest).
      rewrite !element_body, !sizeof_app. specialize (IH false j). lia.
Qed.

Lemma fits_take_le sz events j1 j2 :
  (j1 <= j2)%nat -> fits sz (take j2 events) -> fits sz (take j1 events).
Proof.
  unfold fits. intros Hle. induction Hle as [|j2 Hle IH]; [tauto|].
  intros H. apply IH.
  fold (sizeof (events_json (take (S j2) events))) in H.
  fold (sizeof (events_json (take j2 events))).
  rewrite sizeof_events_json in *.
  pose proof (events_json_body_take_le events true j2). lia.
Qed.

(** The encoder stores the array of the longest prefix of the log that fits
    with its NUL. *)
Lemma update_event_json_longest buf events :
  3 <= sizeof buf <= C.INT_MAX -> Forall event_ints events ->
  exists k rest,
    (k <= length events)%nat
    /\ update_event_json buf events
       = Some (events_json (take k events) ++ NUL :: rest,
               sizeof (events_json (take k events)))
    /\ (forall j, (j <= length events)%nat ->
          fits (sizeof buf) (take j events) <-> (j <= k)%nat).
Proof.
  intros Hsz Hints.
  destruct (update_event_json_spec buf events Hsz Hints)
    as (k & rest & Hk & E & _ & Hfits & Hstop).
  exists k, rest. split; [exact Hk|]. split; [exact E|].
  intros j Hj. split.
  - intros Hj'. destruct (Nat.le_gt_cases j k) as [|Hgt]; [assumption|].
    exfalso. apply Hstop; [lia|].
    apply (fits_take_le _ _ (S k) j); [lia|exact Hj'].
  - intros Hle. apply (fits_take_le _ _ j k Hle Hfits).
Qed.

(** X2. [update_event_json] writes "as much as can fit": the text left in
    the buffer is the array of the first k events of the log, where the
    arrays of the first j events (with a NUL) fit in the buffer exactly for
    j <= k.  No event is ever left out while there is room for it, and when
    the array of the whole log fits, the whole log is written. *)
Theorem encoder_longest_prefix (buf : list ascii) (events : list ZoneEvent.t) :
  3 <= sizeof buf <= C.INT_MAX ->
  Forall event_ints events ->
  exists k buf',
    (k <= length events)%nat
    /\ update_event_json buf events
       = Some (buf', sizeof (events_json (take k events)))
    /\ c_str buf' = Some (events_json (take k events))
    /\ (forall j, (j <= length events)%nat ->
          fits (sizeof buf) (take j events) <-> (j <= k)%nat)
    /\ (fits (sizeof buf) events -> c_str buf' = Some (events_json events)).
Proof.
  intros Hsz Hints.
  destruct (update_event_json_longest buf events Hsz Hints)
    as (k & rest & Hk & E & Hiff).
  exists k. eexists. split; [exact Hk|]. split; [exact E|].
  assert (Hc : c_str (events_json (take k events) ++ NUL :: rest)
               = Some (events_json (take k events)))
    by apply c_str_app, events_json_no_NUL.
  split; [exact Hc|]. split; [exact Hiff|].
  intros Hall. rewrite Hc.
  assert (length events <= k)%nat.
  { apply (Hiff (length events)); [lia|]. rewrite firstn_all. exact Hall. }
  rewrite take_ge by lia. reflexivity.
Qed.

Lemma encoder_longest_prefix_witness :
  let buf := replicate 60 "x"%char in
  let events := [sample_event; sample_event; sample_event] in
  exists k buf',
    (k <= length events)%nat
    /\ update_event_json buf events
       = Some (buf', sizeof (events_json (take k events)))
    /\ c_str buf' = Some (events_json (take k events))
    /\ (forall j, (j <= length events)%nat ->
          fits (sizeof buf) (take j events) <-> (j <= k)%nat)
    /\ (fits (sizeof buf) events -> c_str buf' = Some (events_json events)).
Proof.
  apply (encoder_longest_prefix (replicate 60 "x"%char)
           [sample_event; sample_event; sample_event]).
  - unfold sizeof, C.INT_MAX. simpl. lia.
  - repeat constructor; unfold C.INT_MIN, C.INT_MAX; simpl; lia.
Defined.

(** X3. What [update_event_json] leaves as text, and what it returns, depend
    on the log and on the size of the buffer only, not on what the buffer
    held before: two buffers of the same size get the same text, and writing
    the same log again over the result changes neither text nor result. *)
Theorem encoder_ignores_old_contents
    (buf1 buf2 : list ascii) (events : list ZoneEvent.t) :
  sizeof buf1 = sizeof buf2 ->
  3 <= sizeof buf1 <= C.INT_MAX ->
  Forall event_ints events ->
  exists b1 b2 n s,
    update_event_json buf1 events = Some (b1, n)
    /\ update_event_json buf2 events = Some (b2, n)
    /\ c_str b1 = Some s /\ c_str b2 = Some s
    /\ exists b1', update_event_json b1 events = Some (b1', n)
                   /\ c_str b1' = Some s.
Proof.
  intros Hsame Hsz Hints.
  assert (Huniq : forall buf, sizeof buf = sizeof buf1 ->
            forall k1, (k1 <= length events)%nat ->
            (forall j, (j <= length events)%nat ->
               fits (sizeof buf1) (take j events) <-> (j <= k1)%nat) ->
            exists b, update_event_json buf events
                      = Some (b, sizeof (events_json (take k1 events)))
                      /\ c_str b = Some (events_json (take k1 events))
                      /\ sizeof b = sizeof buf1).
  { intros buf Hb k1 Hk1 Hiff1.
    destruct (update_event_json_spec buf events) as (k & rest & Hk & E & Hl & Hf & Hs);
      [lia|exact Hints|].
    rewrite Hb in *.
    assert (k = k1) as ->.
    { apply Nat.le_antisymm.
      - apply (Hiff1 k Hk), Hf.
      - destruct (Nat.le_gt_cases k1 k) as [|Hgt]; [assumption|].
        exfalso. apply Hs; [lia|].
        apply (fits_take_le _ _ (S k) k1); [lia|]. apply (Hiff1 k1); lia. }
    eexists. split; [exact E|].
    split; [apply c_str_app, events_json_no_NUL|exact Hl]. }
  destruct (update_event_json_longest buf1 events Hsz Hints)
    as (k & rest & Hk & E & Hiff).
  destruct (Huniq buf1 eq_refl k Hk Hiff) as (b1 & E1 & C1 & S1).
  destruct (Huniq buf2 (eq_sym Hsame) k Hk Hiff) as (b2 & E2 & C2 & _).
  destruct (Huniq b1 S1 k Hk Hiff) as (b1' & E1' & C1' & _).
  exists b1, b2. eexists. eexists.
  split; [exact E1|]. split; [exact E2|]. split; [exact C1|].
  split; [exact C2|]. exists b1'. split; [exact E1'|exact C1'].
Qed.

Lemma encoder_ignores_old_contents_witness :
  let buf1 := replicate 60 "x"%char in
  let buf2 := replicate 60 "y"%char in
  let events := [sample_event; sample_event; sample_event] in
  exists b1 b2 n s,
    update_event_json buf1 events = Some (b1, n)
    /\ update_event_json buf2 events = Some (b2, n)
    /\ c_str b1 = Some s /\ c_str b2 = Some s
    /\ exists b1', update_event_json b1 events = Some (b1', n)
                   /\ c_str b1' = Some s.
Proof.
  apply (encoder_ignores_old_contents (replicate 60 "x"%char)
           (replicate 60 "y"%char) [sample_event; sample_event; sample_event]).
  - reflexivity.
  - unfold sizeof, C.INT_MAX. simpl. lia.
  - repeat constructor; unfold C.INT_MIN, C.INT_MAX; simpl; lia.
Defined.

(** The digits of a number: no fewer of them than the bound asks for. *)
Lemma utoa_length_lower fuel : forall n acc k,
  10 ^ Z.of_nat k <= n < 2 ^ Z.of_nat fuel ->
  (S k + length acc <= length (utoa fuel n acc))%nat.
Proof.
  induction fuel as [|fuel IH]; intros n acc k Hn.
  - assert (0 < 10 ^ Z.of_nat k) by (apply Z.pow_pos_nonneg; lia).
    simpl in Hn. lia.
  - assert (0 < 10 ^ Z.of_nat k) by (apply Z.pow_pos_nonneg; lia).
    cbn [utoa]. destruct (Z.ltb_spec n 10) as [Hlt|Hge].
    + destruct k as [|k]; [cbn [length]; lia|].
      rewrite Nat2Z.inj_succ, Z.pow_succ_r in Hn by lia.
      assert (0 < 10 ^ Z.of_nat k) by (apply Z.pow_pos_nonneg; lia). lia.
    + destruct k as [|k].
      * etransitivity; [|apply utoa_grows]. cbn [length]. lia.
      * etransitivity; [|apply (IH _ _ k)]; [cbn [length]; lia|].
        rewrite Nat2Z.inj_succ, Z.pow_succ_r in Hn by lia.
        rewrite (Nat2Z.inj_succ fuel), Z.pow_succ_r in Hn by lia.
        split; [apply Z.div_le_lower_bound; lia|apply Z.div_lt_upper_bound; lia].
Qed.

(** A number of [S k] digits is printed with [S k] characters. *)
Lemma fmt_d_digits z k :
  10 ^ Z.of_nat k <= z < 10 ^ Z.of_nat (S k) -> length (fmt_d z) = S k.
Proof.
  intros Hz.
  assert (0 < 10 ^ Z.of_nat k) by (apply Z.pow_pos_nonneg; lia).
  unfold fmt_d. destruct (Z.ltb_spec z 0); [lia|].
  apply Nat.le_antisymm.
  - pose proof (utoa_length (utoa_fuel z) z [] k ltac:(lia)) as Hu.
    cbn [length] in Hu. lia.
  - pose proof (utoa_length_lower (utoa_fuel z) z [] k) as Hl.
    cbn [length] in Hl. rewrite Nat.add_0_r in Hl. apply Hl.
    split; [lia|apply utoa_fuel_enough; lia].
Qed.

Lemma fmt_d_one_digit z : 0 <= z <= 9 -> length (fmt_d z) = 1%nat.
Proof.
  intros Hz. destruct (Z.eq_dec z 0) as [->|]; [reflexivity|].
  apply (fmt_d_digits z 0). simpl. lia.
Qed.

Lemma ten_digit_time_length event :
  ten_digit_time event -> sizeof (event_json event) = 30.
Proof.
  intros [Hid Ht]. unfold sizeof. rewrite event_json_length.
  rewrite (fmt_d_one_digit _ Hid).
  rewrite (fmt_d_digits _ 9); [reflexivity|].
  unfold C.INT_MAX in Ht.
  change (10 ^ Z.of_nat 9) with 1000000000.
  change (10 ^ Z.of_nat 10) with 10000000000. lia.
Qed.

Lemma ten_digit_time_ints event : ten_digit_time event -> event_ints event.
Proof.
  unfold ten_digit_time, event_ints, C.is_int, C.INT_MIN, C.INT_MAX.
  intros [Hid Ht]. lia.
Qed.

Lemma ten_digit_body events :
  Forall ten_digit_time events ->
  sizeof (events_json_body false events) = 31 * Z.of_nat (length events).
Proof.
  induction 1 as [|event rest He _ IH]; [reflexivity|].
  cbn [events_json_body length]. rewrite !sizeof_app, IH.
  rewrite (ten_digit_time_length event He).
  change (sizeof [","%char]) with 1. lia.
Qed.

Lemma ten_digit_events_json events :
  Forall ten_digit_time events -> events <> [] ->
  sizeof (events_json events) = 31 * Z.of_nat (length events) + 1.
Proof.
  intros Hall Hne. destruct events as [|event rest]; [contradiction|].
  apply Forall_cons in Hall. destruct Hall as [He Hrest].
  rewrite sizeof_events_json. cbn [events_json_body length app].
  rewrite sizeof_app, (ten_digit_body rest Hrest),
    (ten_digit_time_length event He). lia.
Qed.

(** X4. The 620 bytes of [zone_events_json] hold 19 events with times of ten
    digits and zone ids of one digit, not 20: each event takes 30 characters
    and all but the first a comma, so 20 of them need 622 bytes with the
    brackets and the NUL.  Whatever the log of such events, the text that
    [update_event_json] leaves in 620 bytes is the array of its first, that is
    newest, 19 events (of all of them when there are fewer); the oldest event
    of a full log of 20 is never part of the text. *)
Theorem json_buffer_capacity (buf : list ascii) (events : list ZoneEvent.t) :
  sizeof buf = 620 ->
  Forall ten_digit_time events ->
  exists buf',
    update_event_json buf events
      = Some (buf', sizeof (events_json (take 19 events)))
    /\ c_str buf' = Some (events_json (take 19 events))
    /\ ((20 <= length events)%nat ->
        ~ fits 620 (take 20 events) /\ sizeof (events_json (take 20 events)) = 621).
Proof.
  intros Hsz Hall.
  assert (Hints : Forall event_ints events).
  { eapply Forall_impl; [exact Hall|]. apply ten_digit_time_ints. }
  destruct (update_event_json_longest buf events) as (k & rest & Hk & E & Hiff);
    [rewrite Hsz; unfold C.INT_MAX; lia|exact Hints|].
  rewrite Hsz in Hiff.
  assert (Hsize : forall j, (1 <= j <= length events)%nat ->
            sizeof (events_json (take j events)) = 31 * Z.of_nat j + 1).
  { intros j Hj. rewrite ten_digit_events_json.
    - rewrite length_take. lia.
    - apply Forall_take, Hall.
    - intros Hnil. apply (f_equal length) in Hnil.
      rewrite length_take in Hnil. cbn [length] in Hnil. lia. }
  assert (Hk19 : take k events = take 19 events).
  { destruct (Nat.le_gt_cases (length events) 19) as [Hshort|Hlong].
    - assert (length events <= k)%nat.
      { apply (Hiff (length events)); [lia|].
        destruct (Nat.eq_dec (length events) 0%nat) as [H0|H0].
        - rewrite H0, take_0. unfold fits. cbn. lia.
        - unfold fits. fold (sizeof (events_json (take (length events) events))).
          rewrite Hsize by lia. lia. }
      rewrite !take_ge by lia. reflexivity.
    - assert (19 <= k)%nat.
      { apply (Hiff 19%nat); [lia|]. unfold fits.
        fold (sizeof (events_json (take 19 events))). rewrite Hsize by lia. lia. }
      assert (~ (20 <= k)%nat).
      { intros H20. apply (Hiff 20%nat) in H20; [|lia]. unfold fits in H20.
        fold (sizeof (events_json (take 20 events))) in H20.
        rewrite Hsize in H20 by lia. lia. }
      replace k with 19%nat by lia. reflexivity. }
  rewrite Hk19 in E. eexists. split; [exact E|].
  split; [apply c_str_app, events_json_no_NUL|].
  intros Hlen. split.
  - unfold fits. fold (sizeof (events_json (take 20 events))).
    rewrite Hsize by lia. lia.
  - rewrite Hsize by lia. reflexivity.
Qed.

Lemma json_buffer_capacity_witness :
  let buf := zone_events_json initial_state in
  exists buf',
    update_event_json buf full_log
      = Some (buf', sizeof (events_json (take 19 full_log)))
    /\ c_str buf' = Some (events_json (take 19 full_log))
    /\ ((20 <= length full_log)%nat ->
        ~ fits 620 (take 20 full_log)
        /\ sizeof (events_json (take 20 full_log)) = 621).
Proof.
  apply (json_buffer_capacity (zone_events_json initial_state) full_log).
  - reflexivity.
  - unfold full_log. repeat constructor; cbn; unfold C.INT_MAX; lia.
Defined.

(** * Further properties of the debouncer *)

Lemma observe_consistent level zone :
  count_in_range zone -> demand_consistent zone ->
  demand_consistent (observe level zone).
Proof.
  intros Hc [Hoff Hon]. unfold demand_consistent.
  rewrite observe_demand, observe_count by exact Hc.
  unfold threshold_compare, count_in_range, HYST_MIN, HYST_MAX,
    HYST_THRESH_OFF, HYST_THRESH_ON in *.
  destruct level.
  - destruct (Z.ltb_spec (Z.max 0 (ZoneInfo.count zone - 1)) 100).
    + split; [reflexivity|lia].
    + split; [lia|]. intros H'. apply Hon. lia.
  - rewrite Z.gtb_ltb.
    destruct (Z.ltb_spec 400 (Z.min 500 (ZoneInfo.count zone + 5))).
    + split; [lia|reflexivity].
    + split; [|lia]. intros H'. apply Hoff. lia.
Qed.

(** X5. In every state that the program reaches, each zone's counter and
    demand agree: a counter below [HYST_THRESH_OFF] goes with a demand that is
    off, a counter above [HYST_THRESH_ON] with a demand that is on, and a
    demand is unknown only while the counter is between the thresholds. *)
Theorem demand_follows_counter (st : State) :
  reachable st ->
  Forall (fun zone =>
            demand_consistent zone
            /\ (ZoneInfo.demand zone = Demand.Unknown ->
                HYST_THRESH_OFF <= ZoneInfo.count zone <= HYST_THRESH_ON))
         (zone_list st).
Proof.
  intros Hr.
  assert (Hcons : Forall demand_consistent (zone_list st)).
  { induction Hr as [|env st st' Hr IH Hpoll].
    - cbn [initial_state zone_list].
      assert (Hz : forall i p, demand_consistent
                     (ZoneInfo.mk i p (HYST_MAX ÷ 2) Demand.Unknown)).
      { intros i p. change (HYST_MAX ÷ 2) with 250.
        split; cbn; unfold HYST_THRESH_OFF, HYST_THRESH_ON; lia. }
      repeat (constructor; [apply Hz|]). constructor.
    - pose proof (reachable_inv st Hr) as Hinv.
      destruct (read_all_zones_spec env st Hinv) as (st'' & E & Hzones & _).
      rewrite E in Hpoll. injection Hpoll as ->. rewrite Hzones.
      apply Forall_map. pose proof (inv_counts st Hinv) as Hcounts.
      rewrite Forall_forall in IH, Hcounts. apply Forall_forall.
      intros zone Hin. cbn. apply observe_consistent; auto. }
  eapply Forall_impl; [exact Hcons|].
  intros zone [Hoff Hon]. split; [split; assumption|].
  intros Hu. unfold HYST_THRESH_OFF, HYST_THRESH_ON in *.
  destruct (Z.lt_ge_cases (ZoneInfo.count zone) 100) as [Hlt|Hge].
  { rewrite (Hoff Hlt) in Hu. discriminate. }
  destruct (Z.lt_ge_cases 400 (ZoneInfo.count zone)) as [Hgt|Hle]; [|lia].
  rewrite (Hon ltac:(lia)) in Hu. discriminate.
Qed.

Lemma demand_follows_counter_witness :
  Forall (fun zone =>
            demand_consistent zone
            /\ (ZoneInfo.demand zone = Demand.Unknown ->
                HYST_THRESH_OFF <= ZoneInfo.count zone <= HYST_THRESH_ON))
         (zone_list state_30).
Proof.
  apply (demand_follows_counter state_30). apply state_30_reachable.
Defined.

(** ** Runs of readings that say the zone is off *)

Lemma high_run_count (n : nat) : forall zone,
  count_in_range zone ->
  ZoneInfo.count (observe_all (replicate n HIGH) zone)
  = Z.max HYST_MIN (ZoneInfo.count zone - Z.of_nat n).
Proof.
  induction n as [|n IH]; intros zone Hc.
  - cbn [replicate observe_all fold_left]. unfold count_in_range in Hc. lia.
  - cbn [replicate]. rewrite observe_all_cons.
    rewrite IH by (apply observe_in_range, Hc).
    rewrite observe_count by exact Hc. lia.
Qed.

Lemma high_run_False (n : nat) : forall zone,
  ZoneInfo.demand zone = Demand.False ->
  ZoneInfo.demand (observe_all (replicate n HIGH) zone) = Demand.False.
Proof.
  induction n as [|n IH]; intros zone Hd; [exact Hd|].
  cbn [replicate]. rewrite observe_all_cons. apply IH.
  rewrite observe_demand. unfold threshold_compare.
  destruct (_ <? _); [reflexivity|exact Hd].
Qed.

Lemma high_run_demand (n : nat) : forall zone,
  count_in_range zone -> HYST_THRESH_OFF <= ZoneInfo.count zone ->
  ZoneInfo.demand (observe_all (replicate n HIGH) zone)
  = if ZoneInfo.count zone - Z.of_nat n <? HYST_THRESH_OFF
    then Demand.False else ZoneInfo.demand zone.
Proof.
  unfold HYST_THRESH_OFF.
  induction n as [|n IH]; intros zone Hc Hge.
  - cbn [replicate observe_all fold_left].
    destruct (Z.ltb_spec (ZoneInfo.count zone - Z.of_nat 0) 100);
      [lia|reflexivity].
  - cbn [replicate]. rewrite observe_all_cons.
    pose proof (observe_in_range HIGH zone Hc) as Hc1.
    pose proof (observe_count HIGH zone Hc) as Hcount. cbn iota in Hcount.
    pose proof (observe_demand HIGH zone) as Hdemand.
    unfold threshold_compare, HYST_THRESH_OFF in Hdemand.
    unfold count_in_range, HYST_MIN, HYST_MAX in *.
    destruct (Z.ltb_spec (ZoneInfo.count (observe HIGH zone)) 100) as [Hoff|Hon].
    + rewrite high_run_False by exact Hdemand.
      destruct (Z.ltb_spec (ZoneInfo.count zone - Z.of_nat (S n)) 100);
        [reflexivity|lia].
    + rewrite IH by (assumption || lia). rewrite Hdemand, Hcount.
      replace (Z.max 0 (ZoneInfo.count zone - 1) - Z.of_nat n)
        with (ZoneInfo.count zone - Z.of_nat (S n)) by lia.
      reflexivity.
Qed.

(** X6. Turning off: from a counter c at or above [HYST_THRESH_OFF] and a
    demand that is not off, n readings in a row that say the zone is off turn
    the demand off exactly when c - n < HYST_THRESH_OFF, that is at the
    (c - 99)th of them and not before; a zone whose counter is at [HYST_MAX]
    is seen as off at the 401st such reading, and its counter never goes
    below [HYST_MIN]. *)
Theorem turn_off_latency (zone : ZoneInfo.t) (n : nat) :
  HYST_THRESH_OFF <= ZoneInfo.count zone <= HYST_MAX ->
  ZoneInfo.demand zone <> Demand.False ->
  let z := observe_all (replicate n HIGH) zone in
  (ZoneInfo.demand z = Demand.False
   <-> ZoneInfo.count zone - HYST_THRESH_OFF < Z.of_nat n)
  /\ (ZoneInfo.count zone = HYST_MAX ->
      (ZoneInfo.demand z = Demand.False <-> (401 <= n)%nat))
  /\ ZoneInfo.count z = Z.max HYST_MIN (ZoneInfo.count zone - Z.of_nat n).
Proof.
  intros Hc Hd z. subst z.
  assert (Hr : count_in_range zone).
  { unfold count_in_range, HYST_MIN, HYST_THRESH_OFF in *. lia. }
  rewrite high_run_demand by (exact Hr || lia).
  rewrite high_run_count by exact Hr.
  unfold HYST_THRESH_OFF, HYST_MAX in *.
  destruct (Z.ltb_spec (ZoneInfo.count zone - Z.of_nat n) 100).
  - split; [split; [lia|reflexivity]|]. split; [|reflexivity].
    intros Hmax. split; [lia|reflexivity].
  - split; [split; [contradiction|lia]|]. split; [|reflexivity].
    intros Hmax. split; [contradiction|lia].
Qed.

Lemma turn_off_latency_witness :
  let zone := ZoneInfo.mk 0 D4 500 Demand.True in
  let z := observe_all (replicate 401 HIGH) zone in
  (ZoneInfo.demand z = Demand.False
   <-> ZoneInfo.count zone - HYST_THRESH_OFF < Z.of_nat 401)
  /\ (ZoneInfo.count zone = HYST_MAX ->
      (ZoneInfo.demand z = Demand.False <-> (401 <= 401)%nat))
  /\ ZoneInfo.count z = Z.max HYST_MIN (ZoneInfo.count zone - Z.of_nat 401).
Proof.
  apply (turn_off_latency (ZoneInfo.mk 0 D4 500 Demand.True) 401).
  - unfold HYST_THRESH_OFF, HYST_MAX. simpl. lia.
  - discriminate.
Defined.

(** * Further properties of the polls *)

(** X7. Polling never goes wrong: whatever the pins, the clock and the
    stack hold at each poll, any number of calls of [read_all_zones] from the
    initial globals run to their end without a store outside of [buff] or of
    [zone_events_json], and leave globals that satisfy the invariant. *)
Theorem polls_never_fault (envs : list PollEnv) :
  exists st, run_polls envs initial_state = Some st /\ state_inv st.
Proof.
  assert (H : forall st0, state_inv st0 ->
            exists st, run_polls envs st0 = Some st /\ state_inv st).
  { induction envs as [|env envs IH]; intros st0 Hinv.
    - exists st0. split; [reflexivity|exact Hinv].
    - destruct (read_all_zones_spec env st0 Hinv) as (st1 & E & _).
      cbn [run_polls]. rewrite E. cbn [mbind option_bind].
      apply IH. apply (state_inv_poll env st0 st1 Hinv E). }
  apply H, state_inv_initial.
Qed.

Lemma next_polls_mod p :
  0 <= p <= C.INT_MAX -> next_polls p = (p + 1) mod 2147483648.
Proof.
  unfold C.INT_MAX, next_polls. intros Hp.
  destruct (Z.eq_dec p 2147483647) as [->|Hne]; [reflexivity|].
  rewrite to_int_id by (unfold C.is_int, C.INT_MIN, C.INT_MAX; lia).
  destruct (Z.ltb_spec (p + 1) 0); [lia|].
  rewrite Z.mod_small; lia.
Qed.

(** X8. [polls] counts the calls of [read_all_zones] modulo 2^31: after n
    polls from the initial globals it is n mod 2147483648, so it is never
    negative and starts again from 0 after [INT_MAX]. *)
Theorem polls_counts_polls (envs : list PollEnv) (st : State) :
  run_polls envs initial_state = Some st ->
  polls st = Z.of_nat (length envs) mod 2147483648
  /\ 0 <= polls st <= C.INT_MAX.
Proof.
  assert (H : forall envs st0 st, state_inv st0 -> 0 <= polls st0 <= C.INT_MAX ->
            run_polls envs st0 = Some st ->
            polls st = (polls st0 + Z.of_nat (length envs)) mod 2147483648).
  { clear. induction envs as [|env envs IH]; intros st0 st Hinv Hp Hrun.
    - cbn in Hrun. injection Hrun as <-. cbn [length].
      unfold C.INT_MAX in Hp. rewrite Z.mod_small; lia.
    - cbn [run_polls] in Hrun.
      destruct (read_all_zones_spec env st0 Hinv) as (st1 & E & _ & _ & _ & Hpolls & _).
      rewrite E in Hrun. cbn [mbind option_bind] in Hrun.
      rewrite (IH st1 st (state_inv_poll env st0 st1 Hinv E)); [|
        rewrite Hpolls, next_polls_mod by exact Hp; unfold C.INT_MAX;
        pose proof (Z.mod_pos_bound (polls st0 + 1) 2147483648); lia|exact Hrun].
      rewrite Hpolls, next_polls_mod by exact Hp.
      rewrite Z.add_mod_idemp_l by lia. f_equal. cbn [length]. lia. }
  intros Hrun.
  rewrite (H envs initial_state st state_inv_initial); [| |exact Hrun].
  - cbn [initial_state polls]. rewrite Z.add_0_l. split; [reflexivity|].
    unfold C.INT_MAX.
    pose proof (Z.mod_pos_bound (Z.of_nat (length envs)) 2147483648). lia.
  - cbn. unfold C.INT_MAX. lia.
Qed.

Lemma polls_counts_polls_witness :
  polls state_30
  = Z.of_nat (length (replicate 30 (env_const LOW 1000))) mod 2147483648
  /\ 0 <= polls state_30 <= C.INT_MAX.
Proof.
  apply (polls_counts_polls (replicate 30 (env_const LOW 1000)) state_30).
  vm_compute. reflexivity.
Defined.

(** X9. The table of zones is never resized nor renumbered: in every state
    that the program reaches it holds the zones 0, 1 and 2 on the pins D4, D5
    and D6, in this order; a poll changes counters and demands only. *)
Theorem zone_table_fixed (st : State) :
  reachable st ->
  map ZoneInfo.id (zone_list st) = [0; 1; 2]
  /\ map ZoneInfo.pin (zone_list st) = [D4; D5; D6].
Proof.
  induction 1 as [|env st st' Hr IH Hpoll]; [split; reflexivity|].
  destruct (read_all_zones_spec env st (reachable_inv st Hr))
    as (st'' & E & Hzones & _).
  rewrite E in Hpoll. injection Hpoll as ->. rewrite Hzones.
  destruct IH as [Hid Hpin]. rewrite <- Hid, <- Hpin.
  rewrite !map_map. split; apply map_ext; intros zone; unfold poll_zone.
  - apply observe_id.
  - apply observe_pin.
Qed.

Lemma zone_table_fixed_witness :
  map ZoneInfo.id (zone_list state_30) = [0; 1; 2]
  /\ map ZoneInfo.pin (zone_list state_30) = [D4; D5; D6].
Proof.
  apply (zone_table_fixed state_30). apply state_30_reachable.
Defined.

Lemma read_all_zones_json env st st' :
  state_inv st -> read_all_zones env st = Some st' ->
  (zone_events st' = zone_events st
   /\ zone_events_json st' = zone_events_json st)
  \/ exists n,
       update_event_json (zone_events_json st) (zone_events st')
         = Some (zone_events_json st', n).
Proof.
  intros Hinv. unfold read_all_zones.
  match goal with
  | |- context [zones_loop env (zone_list st) ?l] => set (ls0 := l)
  end.
  destruct (zones_loop_spec env (zone_list st) ls0) as (b & Hb & E).
  { apply (inv_ids st Hinv). }
  { subst ls0. cbn [buff]. unfold sizeof. rewrite length_map, length_seq.
    reflexivity. }
  subst ls0. cbn [clock_reads events pubs new_event buff Nat.add] in E.
  rewrite E. clear E.
  cbn [mbind option_bind clock_reads events pubs new_event buff].
  destruct (poll_events env 0 (zone_list st)) as [|event evs'].
  - intros [= <-]. left. split; reflexivity.
  - destruct (update_event_json _ _) as [[json n]|] eqn:Eu; [|discriminate].
    cbn [mbind option_bind]. intros [= <-]. right. exists n. exact Eu.
Qed.

(** X10. The JSON text follows the log: in every state that the program
    reaches, [zone_events_json] holds 620 bytes, and its text is the array of
    the first k events of [zone_events] as they are now, where k is the number
    of events up to which the array (with a NUL) fits in 620 bytes.  A poll
    without an event leaves both as they are, a poll with events writes the
    text again after the last of them. *)
Theorem json_follows_log (st : State) :
  reachable st ->
  sizeof (zone_events_json st) = 620
  /\ exists k,
       (k <= length (zone_events st))%nat
       /\ c_str (zone_events_json st)
          = Some (events_json (take k (zone_events st)))
       /\ forall j, (j <= length (zone_events st))%nat ->
            fits 620 (take j (zone_events st)) <-> (j <= k)%nat.
Proof.
  intros Hr. split; [apply (inv_json_size st (reachable_inv st Hr))|].
  induction Hr as [|env st st' Hr IH Hpoll].
  - exists 0%nat. split; [cbn; lia|]. split; [reflexivity|].
    intros j Hj. cbn [initial_state zone_events length] in *.
    replace j with 0%nat by lia. split; [lia|]. intros _.
    unfold fits. cbn. lia.
  - pose proof (reachable_inv st Hr) as Hinv.
    pose proof (state_inv_poll env st st' Hinv Hpoll) as Hinv'.
    destruct (read_all_zones_json env st st' Hinv Hpoll) as [[-> ->]|[n Eu]];
      [exact IH|].
    destruct (update_event_json_longest (zone_events_json st) (zone_events st'))
      as (k & rest & Hk & E & Hiff).
    { rewrite (inv_json_size st Hinv). unfold C.INT_MAX. lia. }
    { apply (inv_log_ints st' Hinv'). }
    rewrite (inv_json_size st Hinv) in Hiff.
    rewrite E in Eu. injection Eu as Ejson _.
    exists k. split; [exact Hk|]. split; [|exact Hiff].
    rewrite <- Ejson.
    exact (c_str_app (events_json (take k (zone_events st'))) rest
             (events_json_no_NUL _)).
Qed.

Lemma json_follows_log_witness :
  sizeof (zone_events_json state_31) = 620
  /\ exists k,
       (k <= length (zone_events state_31))%nat
       /\ c_str (zone_events_json state_31)
          = Some (events_json (take k (zone_events state_31)))
       /\ forall j, (j <= length (zone_events state_31))%nat ->
            fits 620 (take j (zone_events state_31)) <-> (j <= k)%nat.
Proof.
  apply (json_follows_log state_31).
  apply (reachable_poll (env_const LOW 1000) state_30 state_31).
  - apply state_30_reachable.
  - vm_compute. reflexivity.
Defined.

(** * The scheduler *)

Lemma to_ulong_elapsed t T :
  0 <= t - T <= ULONG_MAX ->
  to_ulong (to_ulong t - to_ulong T) = t - T.
Proof.
  unfold to_ulong, ULONG_MAX. intros H.
  rewrite Zminus_mod_idemp_l, Zminus_mod_idemp_r. apply Z.mod_small. lia.
Qed.

(** X11. [rate_limited_call] measures the time since the last call of its
    function correctly across the wrap-around of [millis()]: when [elapsed]
    milliseconds (less than 2^32) have gone by since [last_action] was set,
    so that [millis()] returns (last_action + elapsed) mod 2^32, the function
    is called exactly when [elapsed >= ACTION_DELAY_MS], and [last_action]
    then becomes the time of this call; otherwise nothing changes. *)
Theorem rate_limit_across_rollover {S : Type}
    (delay : Z) (function : S -> option S) (last_action elapsed : Z) (s : S) :
  0 <= last_action <= ULONG_MAX ->
  0 <= elapsed <= ULONG_MAX ->
  let now := to_ulong (last_action + elapsed) in
  rate_limited_call delay function now last_action s
  = if elapsed <? delay
    then Some (last_action, s)
    else s' ← function s; Some (now, s').
Proof.
  intros Hl He now. unfold rate_limited_call.
  assert (Hnow : to_ulong now = now).
  { subst now. unfold to_ulong. apply Z.mod_mod. lia. }
  rewrite Hnow.
  replace (to_ulong (now - last_action)) with elapsed; [reflexivity|].
  subst now. unfold to_ulong, ULONG_MAX in *.
  rewrite Zminus_mod_idemp_l.
  replace (last_action + elapsed - last_action) with elapsed by lia.
  rewrite Z.mod_small; lia.
Qed.

Lemma rate_limit_across_rollover_witness :
  let last_action := 4294967290 in
  let elapsed := 16 in
  let now := to_ulong (last_action + elapsed) in
  rate_limited_call 10 (fun n : nat => Some (S n)) now last_action 0%nat
  = if elapsed <? 10
    then Some (last_action, 0%nat)
    else s' ← Some 1%nat; Some (now, s').
Proof.
  apply (rate_limit_across_rollover 10 (fun n : nat => Some (S n)) 4294967290 16 0%nat);
    unfold ULONG_MAX; lia.
Defined.

Lemma last_cons_default {A} (l : list A) : forall x d,
  List.last (x :: l) d = List.last l x.
Proof.
  induction l as [|y l IH]; intros x d; [reflexivity|].
  change (List.last (x :: y :: l) d) with (List.last (y :: l) d).
  rewrite (IH y d), (IH y x). reflexivity.
Qed.

Lemma limiter_run_bound delay ts : forall T tprev calls,
  0 < delay <= ULONG_MAX ->
  0 <= tprev - T < delay ->
  steady delay tprev ts ->
  exists T',
    fst (limiter_run delay ts (to_ulong T) calls) = to_ulong T'
    /\ T <= T' <= List.last ts tprev
    /\ (Z.of_nat (snd (limiter_run delay ts (to_ulong T) calls)) - Z.of_nat calls)
       * delay <= T' - T.
Proof.
  induction ts as [|t rest IH]; intros T tprev calls Hd Hprev Hsteady.
  - exists T. cbn. split; [reflexivity|]. split; lia.
  - destruct Hsteady as [Ht Hrest]. cbn [limiter_run].
    unfold rate_limited_call. cbv zeta.
    rewrite to_ulong_elapsed by (unfold ULONG_MAX in *; lia).
    rewrite last_cons_default.
    destruct (Z.ltb_spec (t - T) delay) as [Hlt|Hge].
    + destruct (IH T t calls Hd ltac:(lia) Hrest) as (T' & E & Hb & Hc).
      exists T'. split; [exact E|]. split; [exact Hb|exact Hc].
    + cbn [mbind option_bind].
      destruct (IH t t (S calls) Hd ltac:(lia) Hrest) as (T' & E & Hb & Hc).
      exists T'. split; [exact E|]. split; [lia|]. nia.
Qed.

(** X12. The limit on the rate: when [loop] runs often enough (the results
    of [millis()] never go back and are less than 2^32 - delay apart), an
    instance of [rate_limited_call] with a delay of [delay] milliseconds calls
    its function at most t / delay times in the first t milliseconds after
    the start, wrap-arounds of [millis()] included. *)
Theorem rate_limit_bound (delay : Z) (ts : list Z) :
  0 < delay <= ULONG_MAX ->
  steady delay 0 ts ->
  Z.of_nat (snd (limiter_run delay ts 0 0)) * delay <= List.last ts 0
  /\ Z.of_nat (snd (limiter_run delay ts 0 0)) <= List.last ts 0 / delay.
Proof.
  intros Hd Hsteady.
  destruct (limiter_run_bound delay ts 0 0 0%nat Hd ltac:(lia) Hsteady)
    as (T' & _ & Hb & Hc).
  change (to_ulong 0) with 0 in Hc.
  assert (H : Z.of_nat (snd (limiter_run delay ts 0 0)) * delay <= List.last ts 0)
    by lia.
  split; [exact H|]. apply Z.div_le_lower_bound; lia.
Qed.

Lemma rate_limit_bound_witness :
  let ts := [3; 9; 10; 12; 25; 4294967000; 4294967300; 4294967305; 4294967311] in
  Z.of_nat (snd (limiter_run 10 ts 0 0)) * 10 <= List.last ts 0
  /\ Z.of_nat (snd (limiter_run 10 ts 0 0)) <= List.last ts 0 / 10.
Proof.
  apply (rate_limit_bound 10
           [3; 9; 10; 12; 25; 4294967000; 4294967300; 4294967305; 4294967311]).
  - unfold ULONG_MAX. lia.
  - cbn [steady]. unfold ULONG_MAX. repeat split; lia.
Defined.

(** ** The loop *)

Lemma state_inv_same st g : same_globals st g -> state_inv st -> state_inv g.
Proof.
  intros (Hz & He & Hj & _) Hinv.
  constructor; rewrite <- ?Hz, <- ?He, <- ?Hj; apply Hinv.
Qed.

Lemma read_all_zones_json_cases env st st' :
  state_inv st -> read_all_zones env st = Some st' ->
  match poll_events env 0 (zone_list st) with
  | [] => zone_events_json st' = zone_events_json st
  | _ :: _ =>
      exists n, update_event_json (zone_events_json st) (zone_events st')
                = Some (zone_events_json st', n)
  end.
Proof.
  intros Hinv. unfold read_all_zones.
  match goal with
  | |- context [zones_loop env (zone_list st) ?l] => set (ls0 := l)
  end.
  destruct (zones_loop_spec env (zone_list st) ls0) as (b & Hb & E).
  { apply (inv_ids st Hinv). }
  { subst ls0. cbn [buff]. unfold sizeof. rewrite length_map, length_seq.
    reflexivity. }
  subst ls0. cbn [clock_reads events pubs new_event buff Nat.add] in E.
  rewrite E. clear E.
  cbn [mbind option_bind clock_reads events pubs new_event buff].
  destruct (poll_events env 0 (zone_list st)) as [|event evs'].
  - intros [= <-]. reflexivity.
  - destruct (update_event_json _ _) as [[json n]|] eqn:Eu; [|discriminate].
    cbn [mbind option_bind]. intros [= <-]. exists n. exact Eu.
Qed.

(** The publications have no part in what a poll does to the other
    globals. *)
Lemma read_all_zones_same env st g st' :
  state_inv st -> same_globals st g ->
  read_all_zones env st = Some st' ->
  exists g', read_all_zones env g = Some g' /\ same_globals st' g'.
Proof.
  intros Hinv Hsame Hpoll.
  pose proof (state_inv_same st g Hsame Hinv) as Hinvg.
  destruct (read_all_zones_spec env st Hinv)
    as (st1 & E1 & Hz1 & He1 & _ & Hp1 & Hl1 & Hq1 & Hn1).
  rewrite E1 in Hpoll. injection Hpoll as ->.
  destruct (read_all_zones_spec env g Hinvg)
    as (g' & E2 & Hz2 & He2 & _ & Hp2 & Hl2 & Hq2 & Hn2).
  exists g'. split; [exact E2|].
  pose proof (read_all_zones_json_cases env st st' Hinv E1) as Hj1.
  pose proof (read_all_zones_json_cases env g g' Hinvg E2) as Hj2.
  destruct Hsame as (Hz & He & Hj & Hp & Hlp & Hle).
  rewrite <- Hz, <- He, <- Hp, <- Hj in *.
  assert (Hev : zone_events st' = zone_events g') by congruence.
  unfold same_globals.
  split; [congruence|]. split; [exact Hev|].
  destruct (poll_events env 0 (zone_list st)) as [|event evs] eqn:Eevs.
  - destruct (Hq1 eq_refl) as [_ Hle1]. destruct (Hq2 eq_refl) as [_ Hle2].
    repeat split; congruence.
  - destruct (Hn1 ltac:(discriminate)) as [Hle1 _].
    destruct (Hn2 ltac:(discriminate)) as [Hle2 _].
    destruct Hj1 as [n1 Eu1]. destruct Hj2 as [n2 Eu2].
    rewrite Hev in Eu1. rewrite Eu1 in Eu2. injection Eu2 as Hjson _.
    repeat split; congruence.
Qed.

Lemma heartbeats_app a b : heartbeats (a ++ b) = heartbeats a ++ heartbeats b.
Proof. unfold heartbeats. apply List.filter_app. Qed.

Lemma heartbeats_publications evs : heartbeats (map publication evs) = [].
Proof. induction evs as [|event evs IH]; [reflexivity|exact IH]. Qed.

Lemma poll_publications_app a b :
  poll_publications (a ++ b) = poll_publications a ++ poll_publications b.
Proof. unfold poll_publications. apply List.filter_app. Qed.

Lemma poll_publications_publications evs :
  poll_publications (map publication evs) = map publication evs.
Proof.
  induction evs as [|event evs IH]; [reflexivity|].
  cbn [map]. change (publication event :: map publication evs)
    with ([publication event] ++ map publication evs).
  rewrite poll_publications_app, IH. reflexivity.
Qed.

(** A poll keeps the two parts of the invariant of the loop. *)
Lemma poll_keeps_invariant env g h :
  monitor_ok g -> heartbeat_log g h ->
  exists g', read_all_zones env g = Some g'
             /\ monitor_ok g' /\ heartbeat_log g' h.
Proof.
  intros (st & Hr & Hsame & Hpolls & Hnone) Hlog.
  pose proof (reachable_inv st Hr) as Hinv.
  destruct (read_all_zones_spec env st Hinv) as (st' & E & _ & _ & Hpub' & _).
  destruct (read_all_zones_same env st g st' Hinv Hsame E) as (g' & Eg & Hsame').
  destruct (read_all_zones_spec env g (state_inv_same st g Hsame Hinv))
    as (g'' & Eg' & _ & _ & Hpub & _).
  rewrite Eg in Eg'. injection Eg' as <-.
  exists g'. split; [exact Eg|]. split.
  - exists st'. split; [apply (reachable_poll env st st' Hr E)|].
    split; [exact Hsame'|]. split.
    + rewrite Hpub, Hpub', poll_publications_app,
        poll_publications_publications, Hpolls.
      destruct Hsame as [<- _]. reflexivity.
    + rewrite Hpub', heartbeats_app, heartbeats_publications, Hnone.
      reflexivity.
  - unfold heartbeat_log in *. rewrite Hpub, heartbeats_app,
      heartbeats_publications, app_nil_r. exact Hlog.
Qed.

Lemma String_ulong_value n : 0 <= n -> decimal_value (String_ulong n) = n.
Proof.
  intros Hn. unfold String_ulong. apply utoa_value. split; [lia|].
  destruct (Z.eq_dec n 0) as [->|]; [reflexivity|]. apply utoa_fuel_enough. lia.
Qed.

(** A heartbeat keeps them as well. *)
Lemma heartbeat_keeps_invariant p :
  monitor_ok (globals p) -> heartbeat_log (globals p) (hb p) ->
  exists p', send_heartbeat p = Some p'
             /\ monitor_ok (globals p') /\ heartbeat_log (globals p') (hb p').
Proof.
  intros (st & Hr & Hsame & Hpolls & Hnone) [Hhb Hdata].
  eexists. split; [reflexivity|].
  cbn [globals hb]. split.
  - exists st. split; [exact Hr|]. split; [exact Hsame|].
    split; [|exact Hnone].
    cbn [set_published published]. rewrite poll_publications_app, <- Hpolls.
    apply app_nil_r.
  - unfold heartbeat_log. cbn [set_published published].
    rewrite heartbeats_app. cbn [heartbeats List.filter pub_name String.eqb
      Ascii.eqb Bool.eqb]. cbn.
    set (hs := heartbeats (published (globals p))) in *.
    rewrite length_app. cbn [length].
    replace (length hs + 1)%nat with (S (length hs)) by lia.
    split.
    + rewrite Hhb. unfold to_ulong. rewrite Zplus_mod_idemp_l. f_equal. lia.
    + rewrite seq_S, !map_app, Hdata. cbn [map pub_data Nat.add].
      rewrite Hhb. reflexivity.
Qed.

Lemma rate_limited_call_keeps {S : Type} (I : S -> Prop)
    delay (function : S -> option S) millis last_action s :
  I s ->
  (forall s, I s -> exists s', function s = Some s' /\ I s') ->
  exists last_action' s',
    rate_limited_call delay function millis last_action s
      = Some (last_action', s')
    /\ I s'.
Proof.
  intros Hs Hf. unfold rate_limited_call. cbv zeta.
  destruct (_ <? _).
  - exists last_action, s. split; [reflexivity|exact Hs].
  - destruct (Hf s Hs) as (s' & E & Hs'). rewrite E. cbn [mbind option_bind].
    eexists. exists s'. split; [reflexivity|exact Hs'].
Qed.

(** A call of [loop] runs to its end and keeps the invariant. *)
Lemma loop_keeps_invariant env p :
  monitor_ok (globals p) -> heartbeat_log (globals p) (hb p) ->
  exists p', loop env p = Some p'
             /\ monitor_ok (globals p') /\ heartbeat_log (globals p') (hb p').
Proof.
  set (I := fun p : Program =>
              monitor_ok (globals p) /\ heartbeat_log (globals p) (hb p)).
  intros Hm Hl. assert (Hp : I p) by (split; assumption). clear Hm Hl.
  unfold loop.
  destruct (rate_limited_call_keeps I 10
              (fun p => st ← read_all_zones (poll_env env) (globals p);
                        Some (set_globals p st))
              (millis env 0) (last_action_read_all_zones p) p Hp)
    as (la1 & p1 & E1 & H1).
  { intros q [Hm Hl].
    destruct (poll_keeps_invariant (poll_env env) (globals q) (hb q) Hm Hl)
      as (g' & E & Hm' & Hl').
    rewrite E. cbn [mbind option_bind]. eexists. split; [reflexivity|].
    split; assumption. }
  rewrite E1. cbn [mbind option_bind]. cbv zeta.
  match goal with
  | |- context [rate_limited_call MINUTE_MS send_heartbeat _ _ ?q] =>
      set (p1' := q)
  end.
  assert (H1' : I p1') by exact H1.
  destruct (rate_limited_call_keeps I MINUTE_MS send_heartbeat
              (millis env 1) (last_action_send_heartbeat p1') p1' H1')
    as (la2 & p2 & E2 & H2).
  { intros q [Hm Hl]. apply heartbeat_keeps_invariant; assumption. }
  rewrite E2. cbn [mbind option_bind].
  match goal with
  | |- context [rate_limited_call HALF_DAY_MS sync_time _ _ ?q] =>
      set (p2' := q)
  end.
  assert (H2' : I p2') by exact H2.
  destruct (rate_limited_call_keeps I HALF_DAY_MS sync_time
              (millis env 2) (last_action_sync_time p2') p2' H2')
    as (la3 & p3 & E3 & H3).
  { intros q Hq. eexists. split; [reflexivity|exact Hq]. }
  rewrite E3. cbn [mbind option_bind].
  eexists. split; [reflexivity|]. exact H3.
Qed.

Lemma run_loop_keeps_invariant envs : forall p,
  monitor_ok (globals p) -> heartbeat_log (globals p) (hb p) ->
  exists p', run_loop envs p = Some p'
             /\ monitor_ok (globals p') /\ heartbeat_log (globals p') (hb p').
Proof.
  induction envs as [|env envs IH]; intros p Hm Hl.
  - exists p. split; [reflexivity|]. split; assumption.
  - destruct (loop_keeps_invariant env p Hm Hl) as (p1 & E & Hm1 & Hl1).
    cbn [run_loop]. rewrite E. cbn [mbind option_bind]. apply IH; assumption.
Qed.

Lemma initial_program_invariant :
  monitor_ok (globals initial_program)
  /\ heartbeat_log (globals initial_program) (hb initial_program).
Proof.
  split.
  - exists initial_state. split; [apply reachable_initial|].
    repeat split.
  - split; reflexivity.
Qed.

(** X13. The heartbeat counts up: whatever [loop] is given, the k-th message
    that is published under the name "heartbeat" since the start carries the
    decimal digits of (k - 1) mod 2^32, and [hb] is the number of heartbeats
    sent so far modulo 2^32; the publications of the polls do not disturb the
    numbering. *)
Theorem heartbeat_counts_up (envs : list LoopEnv) (p : Program) :
  run_loop envs initial_program = Some p ->
  let hs := heartbeats (published (globals p)) in
  hb p = Z.of_nat (length hs) mod 4294967296
  /\ map pub_data hs
     = map (fun i => Some (String_ulong (Z.of_nat i mod 4294967296)))
           (seq 0 (length hs))
  /\ forall n, 0 <= n -> decimal_value (String_ulong n) = n.
Proof.
  intros Hrun hs.
  destruct initial_program_invariant as [Hm Hl].
  destruct (run_loop_keeps_invariant envs initial_program Hm Hl)
    as (p' & E & _ & [Hhb Hdata]).
  rewrite E in Hrun. injection Hrun as ->.
  split; [exact Hhb|]. split; [exact Hdata|]. apply String_ulong_value.
Qed.

Lemma heartbeat_counts_up_witness :
  let hs := heartbeats (published (globals sample_program)) in
  hb sample_program = Z.of_nat (length hs) mod 4294967296
  /\ map pub_data hs
     = map (fun i => Some (String_ulong (Z.of_nat i mod 4294967296)))
           (seq 0 (length hs))
  /\ forall n, 0 <= n -> decimal_value (String_ulong n) = n.
Proof.
  apply (heartbeat_counts_up sample_loop_envs sample_program).
  vm_compute. reflexivity.
Defined.

(** The run of the witness: two heartbeats, numbered 0 and 1, and two
    polls. *)
Example sample_program_run :
  map pub_data (heartbeats (published (globals sample_program)))
    = [Some (chars "0"); Some (chars "1")]
  /\ polls (globals sample_program) = 2
  /\ hb sample_program = 2
  /\ time_syncs sample_program = 0%nat.
Proof. vm_compute. repeat split. Qed.

(** X14. [loop] never goes wrong, and the scheduler leaves the monitor to
    the polls: after any number of calls of [loop] from the start, with any
    results of [millis()], of the pins and of the clock, the globals are
    those of a state that calls of [read_all_zones] alone reach from the
    initial globals, but for the heartbeats among the publications.  The
    zone list, the log, the JSON buffer, [polls], [last_poll] and
    [last_event] are those of that state; the publications made so far, with
    the ones named "heartbeat" taken out, are the publications of that state,
    one after the other in the same order; that state has no heartbeat among
    its publications; and the invariant of the globals holds. *)
Theorem loop_runs_polls (envs : list LoopEnv) :
  exists p st,
    run_loop envs initial_program = Some p
    /\ reachable st
    /\ zone_list (globals p) = zone_list st
    /\ zone_events (globals p) = zone_events st
    /\ zone_events_json (globals p) = zone_events_json st
    /\ polls (globals p) = polls st
    /\ last_poll (globals p) = last_poll st
    /\ last_event (globals p) = last_event st
    /\ List.filter (fun pub => negb (String.eqb (pub_name pub) "heartbeat"))
                   (published (globals p))
       = published st
    /\ List.filter (fun pub => String.eqb (pub_name pub) "heartbeat")
                   (published st)
       = []
    /\ state_inv (globals p).
Proof.
  destruct initial_program_invariant as [Hm Hl].
  destruct (run_loop_keeps_invariant envs initial_program Hm Hl)
    as (p & E & (st & Hr & Hsame & Hpolls & Hnone) & _).
  exists p, st. split; [exact E|]. split; [exact Hr|].
  pose proof (state_inv_same st (globals p) Hsame (reachable_inv st Hr)) as Hinv.
  destruct Hsame as (Hz & He & Hj & Hp & Hlp & Hle).
  repeat (split; [first [symmetry; assumption | assumption]|]).
  exact Hinv.
Qed.

(** * [setup] *)

Lemma c_str_window s rest :
  Forall (fun c => c <> NUL) s ->
  forall n, c_str (take n s ++ NUL :: rest) = Some (take n s).
Proof. intros Hs n. apply c_str_app, Forall_take, Hs. Qed.

Lemma zone_variable_name_no_NUL suffix id :
  Forall (fun c => c <> NUL) (chars suffix) ->
  Forall (fun c => c <> NUL) (zone_variable_name suffix id).
Proof.
  intros Hs. unfold zone_variable_name. constructor; [discriminate|].
  apply Forall_app. split; [apply fmt_d_no_NUL|exact Hs].
Qed.

(** [snprintf] of a name into the 12 bytes of [buff]. *)
Lemma snprintf_name buff fmt suffix id :
  sizeof buff = PARTICLE_VARIABLE_SIZE ->
  format fmt [id] = zone_variable_name suffix id ->
  Forall (fun c => c <> NUL) (chars suffix) ->
  exists buff' n,
    snprintf buff 0 (sizeof buff) fmt [id] = Some (buff', n)
    /\ sizeof buff' = PARTICLE_VARIABLE_SIZE
    /\ c_str buff' = Some (registered_name suffix id).
Proof.
  unfold PARTICLE_VARIABLE_SIZE. intros Hsz Hfmt Hs.
  destruct (snprintf_window [] buff [] (sizeof buff) fmt [id])
    as (w & E & Hl & Hpos & _); [lia|].
  cbn [app] in E. rewrite app_nil_r in E. change (sizeof []) with 0 in E.
  rewrite app_nil_r in E. rewrite E.
  exists w. eexists. split; [reflexivity|].
  split; [unfold sizeof in *; lia|].
  rewrite (Hpos ltac:(lia)), Hfmt, Hsz. rewrite <- app_assoc. cbn [app].
  change (Z.to_nat (12 - 1)) with 11%nat.
  apply c_str_window, zone_variable_name_no_NUL, Hs.
Qed.

Lemma setup_zones_spec zones : forall index buff calls,
  sizeof buff = PARTICLE_VARIABLE_SIZE ->
  exists buff',
    setup_zones zones index buff calls
      = Some (buff', calls ++ zone_setup_calls registered_name zones index)
    /\ sizeof buff' = PARTICLE_VARIABLE_SIZE.
Proof.
  induction zones as [|zone rest IH]; intros index buff calls Hsz.
  - exists buff. cbn. rewrite app_nil_r. split; [reflexivity|exact Hsz].
  - cbn [setup_zones zone_setup_calls].
    destruct (snprintf_name buff (chars "z%d_demand") "_demand" (ZoneInfo.id zone) Hsz)
      as (b1 & n1 & E1 & H1 & C1); [reflexivity|repeat (constructor; try discriminate)|].
    rewrite E1. cbn [mbind option_bind]. rewrite C1.
    destruct (snprintf_name b1 (chars "z%d_count") "_count" (ZoneInfo.id zone) H1)
      as (b2 & n2 & E2 & H2 & C2); [reflexivity|repeat (constructor; try discriminate)|].
    rewrite E2. cbn [mbind option_bind]. rewrite C2.
    destruct (IH (S index) b2
      (((calls ++ [pinMode_INPUT (ZoneInfo.pin zone)]) ++
        [Particle_variable (Some (registered_name "_demand" (ZoneInfo.id zone)))
           (var_zone_demand index)]) ++
       [Particle_variable (Some (registered_name "_count" (ZoneInfo.id zone)))
          (var_zone_count index)]) H2) as (b3 & E3 & H3).
    rewrite E3. exists b3. split; [|exact H3].
    rewrite <- !app_assoc. reflexivity.
Qed.

Lemma fmt_d_short z : 0 <= z <= 999 -> (length (fmt_d z) <= 3)%nat.
Proof.
  intros Hz. unfold fmt_d. destruct (Z.ltb_spec z 0); [lia|].
  pose proof (utoa_length (utoa_fuel z) z [] 2) as H'.
  cbn [length] in H'. rewrite Nat.add_0_r in H'. apply H'.
  change (10 ^ Z.of_nat 3) with 1000. lia.
Qed.

Lemma registered_name_short suffix zone :
  short_id zone -> (length (chars suffix) <= 7)%nat ->
  registered_name suffix (ZoneInfo.id zone)
  = zone_variable_name suffix (ZoneInfo.id zone).
Proof.
  intros Hid Hs. unfold registered_name. apply take_ge.
  unfold zone_variable_name. cbn [length]. rewrite length_app.
  pose proof (fmt_d_short _ Hid). lia.
Qed.

Lemma zone_setup_calls_short zones : forall index,
  Forall short_id zones ->
  zone_setup_calls registered_name zones index
  = zone_setup_calls zone_variable_name zones index.
Proof.
  induction zones as [|zone rest IH]; intros index Hall; [reflexivity|].
  apply Forall_cons in Hall. destruct Hall as [Hz Hrest].
  cbn [zone_setup_calls]. rewrite (IH _ Hrest).
  rewrite !(registered_name_short _ zone Hz) by (cbn; lia). reflexivity.
Qed.

Lemma setup_spec garbage st :
  setup garbage st
  = Some (zone_setup_calls registered_name (zone_list st) 0 ++ global_setup_calls).
Proof.
  unfold setup.
  destruct (setup_zones_spec (zone_list st) 0
              (map garbage (seq 0 (Z.to_nat PARTICLE_VARIABLE_SIZE))) [])
    as (b & E & _).
  { unfold sizeof. rewrite length_map, length_seq. reflexivity. }
  rewrite E. reflexivity.
Qed.

(** X15. [setup] makes no store outside of its 12 bytes of [buff], whatever
    the ids of the zones, and makes these calls: for each zone in turn,
    [pinMode(pin, INPUT)] and [Particle.variable] for its demand and for its
    counter, under the names "z<id>_demand" and "z<id>_count" cut to 11
    characters; then [Particle.variable] for "zone_events", "polls",
    "last_poll" and "last_event".  For ids from 0 to 999 no name is cut. *)
Theorem setup_registers (garbage : nat -> ascii) (st : State) :
  setup garbage st
  = Some (zone_setup_calls registered_name (zone_list st) 0 ++ global_setup_calls)
  /\ (Forall short_id (zone_list st) ->
      setup garbage st
      = Some (zone_setup_calls zone_variable_name (zone_list st) 0
              ++ global_setup_calls)).
Proof.
  split; [apply setup_spec|]. intros Hshort.
  rewrite setup_spec, zone_setup_calls_short by exact Hshort. reflexivity.
Qed.

(** What [setup] asks for with the zones of the program, and with a zone of
    id 1000, whose first name is cut. *)
Example setup_calls_of_the_program :
  option_map variable_names (setup (fun _ => "x"%char) initial_state)
  = Some (map (fun s => Some (chars s))
              [ "z0_demand"; "z0_count"; "z1_demand"; "z1_count";
                "z2_demand"; "z2_count";
                "zone_events"; "polls"; "last_poll"; "last_event" ]%string)
  /\ registered_name "_demand" 1000 = chars "z1000_deman".
Proof. vm_compute. split; reflexivity. Qed.

Lemma underscore_not_digit : ~ is_digit "_"%char.
Proof. unfold is_digit. change (nat_of_ascii "_") with 95%nat. lia. Qed.

(** Digits up to an underscore: the two parts are read off the whole. *)
Lemma digits_split x : forall y r1 r2,
  Forall is_digit x -> Forall is_digit y ->
  x ++ "_"%char :: r1 = y ++ "_"%char :: r2 ->
  x = y /\ r1 = r2.
Proof.
  induction x as [|c x IH]; intros y r1 r2 Hx Hy E.
  - destruct y as [|d y]; cbn [app] in E.
    + injection E as ->. split; reflexivity.
    + injection E as <- _. apply Forall_cons in Hy.
      destruct Hy as [Hd _]. destruct (underscore_not_digit Hd).
  - apply Forall_cons in Hx. destruct Hx as [Hc Hx].
    destruct y as [|d y]; cbn [app] in E.
    + injection E as -> _. destruct (underscore_not_digit Hc).
    + injection E as <- E. apply Forall_cons in Hy. destruct Hy as [_ Hy].
      destruct (IH y r1 r2 Hx Hy E) as [-> ->]. split; reflexivity.
Qed.

Lemma fmt_d_digits_nonneg z : 0 <= z -> Forall is_digit (fmt_d z).
Proof.
  intros Hz. unfold fmt_d. destruct (Z.ltb_spec z 0); [lia|].
  apply utoa_digits; [lia|constructor].
Qed.

Lemma fmt_d_inj a b : 0 <= a -> 0 <= b -> fmt_d a = fmt_d b -> a = b.
Proof.
  intros Ha Hb E.
  destruct (fmt_d_value a) as [Va _]. destruct (fmt_d_value b) as [Vb _].
  rewrite <- (Va Ha), <- (Vb Hb), E. reflexivity.
Qed.

Lemma fmt_d_head z :
  0 <= z -> exists d ds, fmt_d z = d :: ds /\ is_digit d.
Proof.
  intros Hz. pose proof (fmt_d_digits_nonneg z Hz) as Hd.
  destruct (fmt_d z) as [|d ds] eqn:E.
  - destruct (fmt_d_value z) as [V _]. specialize (V Hz). rewrite E in V.
    cbn in V. subst z. discriminate E.
  - apply Forall_cons in Hd. destruct Hd as [Hd _]. exists d, ds.
    split; [reflexivity|exact Hd].
Qed.

(** The names of the variables of the zones tell the zone and the variable. *)
Lemma zone_variable_name_inj s1 s2 a b :
  (s1 = "_demand" \/ s1 = "_count")%string ->
  (s2 = "_demand" \/ s2 = "_count")%string ->
  0 <= a -> 0 <= b ->
  zone_variable_name s1 a = zone_variable_name s2 b ->
  a = b /\ s1 = s2.
Proof.
  intros H1 H2 Ha Hb E. unfold zone_variable_name in E. injection E as E.
  destruct H1 as [-> | ->], H2 as [-> | ->];
    cbn [chars list_ascii_of_string] in E;
    apply digits_split in E; try (apply fmt_d_digits_nonneg; assumption);
    destruct E as [E1 E2]; try discriminate E2;
    (split; [apply fmt_d_inj; assumption|reflexivity]).
Qed.

Lemma zone_variable_name_not_global s a name :
  0 <= a ->
  In name [chars "zone_events"; chars "polls"; chars "last_poll"; chars "last_event"] ->
  zone_variable_name s a <> name.
Proof.
  intros Ha Hin E. unfold zone_variable_name in E.
  destruct (fmt_d_head a Ha) as (d & ds & Ed & Hd). rewrite Ed in E.
  cbn [In] in Hin.
  destruct Hin as [<-|[<-|[<-|[<-|[]]]]]; cbn in E; try discriminate E.
  injection E as -> _. unfold is_digit in Hd.
  change (nat_of_ascii "o") with 111%nat in Hd. lia.
Qed.

Lemma variable_names_app a b :
  variable_names (a ++ b) = variable_names a ++ variable_names b.
Proof.
  induction a as [|[pin|name var] a IH]; cbn [app variable_names];
    rewrite ?IH; reflexivity.
Qed.

Lemma variable_names_zones zones : forall index name,
  In name (variable_names (zone_setup_calls zone_variable_name zones index)) ->
  exists zone s,
    In zone zones /\ (s = "_demand" \/ s = "_count")%string
    /\ name = Some (zone_variable_name s (ZoneInfo.id zone)).
Proof.
  induction zones as [|zone rest IH]; intros index name Hin; [destruct Hin|].
  cbn [zone_setup_calls app variable_names In] in Hin.
  destruct Hin as [<-|[<-|Hin]].
  - exists zone, "_demand"%string. cbn [In]. tauto.
  - exists zone, "_count"%string. cbn [In]. tauto.
  - destruct (IH _ _ Hin) as (z & s & Hz & Hs & E). exists z, s. cbn [In]. tauto.
Qed.

Lemma variable_names_zones_length name zones : forall index,
  length (variable_names (zone_setup_calls name zones index))
  = (2 * length zones)%nat.
Proof.
  induction zones as [|zone rest IH]; intros index; [reflexivity|].
  cbn [zone_setup_calls app variable_names length]. rewrite IH. lia.
Qed.

Lemma zone_names_NoDup zones : forall index,
  Forall short_id zones ->
  List.NoDup (map ZoneInfo.id zones) ->
  List.NoDup (variable_names (zone_setup_calls zone_variable_name zones index)).
Proof.
  induction zones as [|zone rest IH]; intros index Hshort Hnd; [constructor|].
  apply Forall_cons in Hshort. destruct Hshort as [Hz Hrest].
  cbn [map] in Hnd. apply List.NoDup_cons_iff in Hnd. destruct Hnd as [Hnotin Hnd].
  cbn [zone_setup_calls app variable_names].
  assert (Hfresh : forall s, (s = "_demand" \/ s = "_count")%string ->
            ~ In (Some (zone_variable_name s (ZoneInfo.id zone)))
                 (variable_names (zone_setup_calls zone_variable_name rest (S index)))).
  { intros s Hs Hin.
    destruct (variable_names_zones rest _ _ Hin) as (z & s' & Hzin & Hs' & E).
    apply (inj Some) in E.
    assert (Hz' : short_id z).
    { rewrite Forall_forall in Hrest. apply Hrest, list_elem_of_In, Hzin. }
    unfold short_id in *.
    assert (Ha : 0 <= ZoneInfo.id zone) by lia.
    assert (Hb : 0 <= ZoneInfo.id z) by lia.
    destruct (zone_variable_name_inj s s' _ _ Hs Hs' Ha Hb E) as [Hid _].
    apply Hnotin. rewrite Hid. apply List.in_map, Hzin. }
  constructor.
  - cbn [In]. intros [E|Hin].
    + apply (inj Some) in E. unfold short_id in Hz.
      assert (Ha : 0 <= ZoneInfo.id zone) by lia.
      destruct (zone_variable_name_inj "_count" "_demand" _ _
                  (or_intror eq_refl) (or_introl eq_refl) Ha Ha E) as [_ Hs].
      discriminate Hs.
    + apply (Hfresh "_demand"%string); tauto.
  - constructor; [apply Hfresh; tauto|apply IH; assumption].
Qed.

(** X16. The names that [setup] registers are all different, so that every
    variable can be asked for: for zones whose ids are different numbers from
    0 to 999, as the zones 0, 1 and 2 of the program are, no two of the names
    "z<id>_demand", "z<id>_count", "zone_events", "polls", "last_poll" and
    "last_event" are the same string. *)
Theorem setup_names_distinct (garbage : nat -> ascii) (st : State) :
  Forall short_id (zone_list st) ->
  List.NoDup (map ZoneInfo.id (zone_list st)) ->
  exists calls,
    setup garbage st = Some calls
    /\ List.NoDup (variable_names calls)
    /\ length (variable_names calls) = (2 * length (zone_list st) + 4)%nat.
Proof.
  intros Hshort Hnd.
  assert (E : setup garbage st
              = Some (zone_setup_calls zone_variable_name (zone_list st) 0
                      ++ global_setup_calls)).
  { rewrite setup_spec, zone_setup_calls_short by exact Hshort. reflexivity. }
  eexists. split; [exact E|].
  rewrite variable_names_app. split.
  - apply List.NoDup_app.
    + apply zone_names_NoDup; assumption.
    + cbn. repeat constructor; cbn [In]; intros H;
        repeat (destruct H as [H|H]; try discriminate H); exact H.
    + intros name Hin Hglobal.
      destruct (variable_names_zones _ _ _ Hin) as (z & s & Hz & _ & ->).
      assert (Hz' : short_id z).
      { rewrite Forall_forall in Hshort. apply Hshort, list_elem_of_In, Hz. }
      cbn [global_setup_calls variable_names In] in Hglobal.
      unfold short_id in Hz'.
      apply (zone_variable_name_not_global s (ZoneInfo.id z)
               (zone_variable_name s (ZoneInfo.id z)));
        [lia| |reflexivity].
      cbn [In].
      destruct Hglobal as [H|[H|[H|[H|[]]]]]; apply (inj Some) in H; tauto.
  - rewrite length_app, variable_names_zones_length.
    cbn [global_setup_calls variable_names length]. lia.
Qed.

Lemma setup_names_distinct_witness :
  exists calls,
    setup (fun _ => "x"%char) initial_state = Some calls
    /\ List.NoDup (variable_names calls)
    /\ length (variable_names calls)
       = (2 * length (zone_list initial_state) + 4)%nat.
Proof.
  apply (setup_names_distinct (fun _ => "x"%char) initial_state).
  - repeat constructor; cbn; lia.
  - cbn. repeat constructor; cbn [In]; intros H;
      repeat (destruct H as [H|H]; try discriminate H); exact H.
Defined.

(** * The log and the polls *)

Lemma poll_events_length env zones : forall k,
  (length (poll_events env k zones) <= length zones)%nat.
Proof.
  induction zones as [|zone rest IH]; intros k; [reflexivity|].
  cbn [poll_events length]. destruct (demand_eqb _ _).
  - specialize (IH k). lia.
  - cbn [length]. specialize (IH (S k)). lia.
Qed.

(** X17. What a poll does to the log: the events of the zones whose demand
    changed, at most one for each zone, are put in front of the log, the
    event of the zone polled last first, and the log is cut to its 20 newest
    events; in every state that the program reaches the log holds 20 events
    at most. *)
Theorem poll_updates_log (env : PollEnv) (st st' : State) :
  reachable st ->
  read_all_zones env st = Some st' ->
  zone_events st'
  = take 20 (rev (poll_events env 0 (zone_list st)) ++ zone_events st)
  /\ (length (poll_events env 0 (zone_list st)) <= 3)%nat
  /\ (length (zone_events st) <= 20)%nat
  /\ (length (zone_events st') <= 20)%nat.
Proof.
  intros Hr Hpoll. pose proof (reachable_inv st Hr) as Hinv.
  destruct (read_all_zones_spec env st Hinv) as (st'' & E & Hzones & Hlog & _).
  rewrite E in Hpoll. injection Hpoll as ->.
  pose proof (inv_log_length st Hinv) as Hlen. unfold MAX_NUM_EVENTS in Hlen.
  rewrite Hlog, push_all_bounded by exact Hlen.
  split; [reflexivity|]. split.
  - etransitivity; [apply poll_events_length|].
    assert (Hthree : forall s, reachable s -> length (zone_list s) = 3%nat).
    { clear. induction 1 as [|env s s' Hr IH Hpoll]; [reflexivity|].
      destruct (read_all_zones_spec env s (reachable_inv s Hr))
        as (s'' & E & Hz & _).
      rewrite E in Hpoll. injection Hpoll as ->.
      rewrite Hz, length_map. exact IH. }
    rewrite (Hthree st Hr). lia.
  - split; [lia|]. rewrite length_take. lia.
Qed.

Lemma poll_updates_log_witness :
  let env := env_const LOW 1000 in
  zone_events state_31
  = take 20 (rev (poll_events env 0 (zone_list state_30)) ++ zone_events state_30)
  /\ (length (poll_events env 0 (zone_list state_30)) <= 3)%nat
  /\ (length (zone_events state_30) <= 20)%nat
  /\ (length (zone_events state_31) <= 20)%nat.
Proof.
  apply (poll_updates_log (env_const LOW 1000) state_30 state_31).
  - apply state_30_reachable.
  - vm_compute. reflexivity.
Defined.

Lemma poll_events_at_threshold env zones : forall k,
  Forall count_in_range zones ->
  Forall logged_at_threshold (poll_events env k zones).
Proof.
  induction zones as [|zone rest IH]; intros k Hc; [constructor|].
  apply Forall_cons in Hc. destruct Hc as [Hz Hrest].
  cbn [poll_events]. destruct (demand_eqb _ _) eqn:E; [apply IH, Hrest|].
  constructor; [|apply IH, Hrest].
  apply demand_eqb_neq in E. unfold poll_zone in *.
  set (level := digitalRead env (ZoneInfo.pin zone)) in *.
  unfold logged_at_threshold. cbn [ZoneEvent.demand ZoneEvent.info].
  split; [reflexivity|].
  pose proof (observe_in_range level zone Hz) as Hr.
  pose proof (observe_demand level zone) as Hd.
  unfold threshold_compare, count_in_range, HYST_MIN, HYST_MAX,
    HYST_THRESH_ON, HYST_THRESH_OFF in *.
  destruct level.
  - destruct (Z.ltb_spec (ZoneInfo.count (observe HIGH zone)) 100).
    + right. split; [exact Hd|lia].
    + exfalso. apply E. symmetry. exact Hd.
  - rewrite Z.gtb_ltb in Hd.
    destruct (Z.ltb_spec 400 (ZoneInfo.count (observe LOW zone))).
    + left. split; [exact Hd|lia].
    + exfalso. apply E. symmetry. exact Hd.
Qed.

(** X18. No premature flip: every event in the log of a state that the
    program reaches was logged at a crossing of a threshold.  An event that
    says "on" holds a snapshot of its zone with the counter above
    [HYST_THRESH_ON], an event that says "off" one with the counter below
    [HYST_THRESH_OFF], and the demand of the event is the demand of the
    snapshot. *)
Theorem events_logged_at_threshold (st : State) :
  reachable st -> Forall logged_at_threshold (zone_events st).
Proof.
  induction 1 as [|env st st' Hr IH Hpoll]; [constructor|].
  pose proof (reachable_inv st Hr) as Hinv.
  destruct (read_all_zones_spec env st Hinv) as (st'' & E & _ & Hlog & _).
  rewrite E in Hpoll. injection Hpoll as ->.
  rewrite Hlog, push_all_bounded by apply (inv_log_length st Hinv).
  apply Forall_take, Forall_app. split; [|exact IH].
  apply Forall_rev, poll_events_at_threshold, (inv_counts st Hinv).
Qed.

Lemma events_logged_at_threshold_witness :
  Forall logged_at_threshold (zone_events state_31).
Proof.
  apply (events_logged_at_threshold state_31).
  apply (reachable_poll (env_const LOW 1000) state_30 state_31).
  - apply state_30_reachable.
  - vm_compute. reflexivity.
Defined.
